(** * MontyHall: the trial state machine and the series aggregator

    A shallow embedding of [montyhall.py] (classes [Game] and [GameSeries])
    and the properties of its trial life cycle and of its statistics.

    Conventions of the embedding.
    - Python integers that the program only ever uses as counts and indices
      are [nat]; [None] is [None] of an [option].
    - A method that mutates [self] is a function from the object to the
      updated object.  The generator [rng] is one object shared by the series
      and all its games, so its state is threaded through every call.
    - A raised exception is [Raise e]; the object state at the moment of the
      raise is dropped, since no caller in the program inspects it.
    - Console output ([print], [pprint]) is not modelled; [verbose] is kept
      as a field only. *)

From stdpp Require Import base numbers option list strings pretty gmap.

Local Open Scope string_scope.
Set Warnings "-abstract-large-number,-clear-no-such-hyp".
Set Default Proof Using "Type*".

(* ===================================================================== *)
(** ** Exceptions and results *)

Inductive exn : Type :=
  | ValueError          (* numpy: bad bound or sample size; list.index *)
  | IndexError          (* subscript out of range *)
  | TypeError           (* None + 1 *)
  | UnboundLocalError   (* a local read before any assignment *)
  | RecursionError.     (* the interpreter's recursion limit *)

Inductive result (A : Type) : Type :=
  | Ok (a : A)
  | Raise (e : exn).
Arguments Ok {A} a.
Arguments Raise {A} e.

#[export] Instance result_ret : MRet result := fun A a => Ok a.
#[export] Instance result_bind : MBind result := fun A B k m =>
  match m with
  | Ok a => k a
  | Raise e => Raise e
  end.

Definition is_ok {A : Type} (m : result A) : bool :=
  match m with Ok _ => true | Raise _ => false end.

(* ===================================================================== *)
(** ** Python helpers *)

(** Truthiness of an optional integer: [None] and [0] are falsy. *)
Definition truthy (x : option nat) : option nat :=
  match x with
  | Some (S k) => Some (S k)
  | _ => None
  end.

(** [a or b] on optional integers. *)
Definition py_or (a b : option nat) : option nat :=
  match truthy a with
  | Some _ => a
  | None => b
  end.

(** [a or b] where [b] is an integer. *)
Definition py_or_nat (a : option nat) (b : nat) : nat :=
  match truthy a with
  | Some k => k
  | None => b
  end.

(** [l[i]] on a Python list. *)
Definition subscript {A : Type} (l : list A) (i : nat) : result A :=
  match l !! i with
  | Some x => Ok x
  | None => Raise IndexError
  end.

(** [l.remove(x)] guarded so that an absent [x] leaves [l] as it is: the
    first occurrence is dropped. *)
Fixpoint remove_first (x : nat) (l : list nat) : list nat :=
  match l with
  | [] => []
  | y :: l' => if decide (x = y) then l' else y :: remove_first x l'
  end.

(** [x in l] where [x] may be [None] and [l] holds integers. *)
Definition choice_in (c : option nat) (l : list nat) : bool :=
  match c with
  | Some x => bool_decide (x ∈ l)
  | None => false
  end.

(** [[idx for idx, b in enumerate(l) if b == want]]. *)
Fixpoint indices_from (want : bool) (i : nat) (l : list bool) : list nat :=
  match l with
  | [] => []
  | b :: l' =>
      if eqb b want then i :: indices_from want (S i) l'
      else indices_from want (S i) l'
  end.
Definition indices (want : bool) (l : list bool) : list nat :=
  indices_from want 0 l.

(** [list(l).index(True)]. *)
Fixpoint index_true_from (i : nat) (l : list bool) : result nat :=
  match l with
  | [] => Raise ValueError
  | b :: l' => if b then Ok i else index_true_from (S i) l'
  end.
Definition index_true (l : list bool) : result nat := index_true_from 0 l.

(** [any(l)]. *)
Definition any (l : list bool) : bool := existsb id l.

(** [a[i] = v] on a numpy array. *)
Definition array_set (a : list bool) (i : nat) (v : bool) : result (list bool) :=
  if decide (i < length a) then Ok (<[i := v]> a) else Raise IndexError.

(** [a[idxs] = v] on a numpy array, [idxs] an array of indices. *)
Fixpoint array_set_all (a : list bool) (idxs : list nat) (v : bool)
  : result (list bool) :=
  match idxs with
  | [] => Ok a
  | i :: idxs' => a' ← array_set a i v; array_set_all a' idxs' v
  end.

(** Number of entries of [l] equal to [b]. *)
Definition count (b : bool) (l : list bool) : nat :=
  length (filter (fun x => x = b) l).

(* ===================================================================== *)
(** ** The random source

    [numpy.random.Generator] is used through two methods only.  The class
    gives the raw draws; the wrappers below add numpy's argument checks. *)

Class RandomSource (R : Type) : Type := {
  (** a draw in [0, bound) for a positive [bound] *)
  draw : nat -> R -> nat * R;
  (** [k] distinct draws in [0, n) for [k <= n] *)
  sample : nat -> nat -> R -> list nat * R
}.

Class RandomSourceLaws (R : Type) `{RandomSource R} : Prop := {
  draw_lt : forall (bound : nat) (r : R), 0 < bound -> (draw bound r).1 < bound;
  sample_length : forall (n k : nat) (r : R), k <= n -> length (sample n k r).1 = k;
  sample_NoDup : forall (n k : nat) (r : R), k <= n -> NoDup (sample n k r).1;
  sample_lt : forall (n k : nat) (r : R), k <= n -> Forall (fun i => i < n) (sample n k r).1
}.

(** [rng.integers(bound)]: [ValueError] unless [bound] is positive. *)
Definition rng_integers `{RandomSource R} (bound : nat) (r : R) : result (nat * R) :=
  if decide (bound = 0) then Raise ValueError else Ok (draw bound r).

(** [rng.choice(n, k, replace=False)]: [ValueError] when the sample is
    larger than the population. *)
Definition rng_choice `{RandomSource R} (n k : nat) (r : R) : result (list nat * R) :=
  if decide (k <= n) then Ok (sample n k r) else Raise ValueError.

(** A replayable source: a tape of raw numbers, read left to right and
    reduced into the requested range; an exhausted tape reads [0]. *)
Definition tape_draw (bound : nat) (t : list nat) : nat * list nat :=
  match t with
  | [] => (0, [])
  | x :: t' => (x mod bound, t')
  end.

Fixpoint tape_pick (pool : list nat) (k : nat) (t : list nat) : list nat * list nat :=
  match k with
  | 0 => ([], t)
  | S k' =>
      let '(x, t1) := tape_draw (length pool) t in
      match pool !! x with
      | Some d =>
          let '(ds, t2) := tape_pick (remove_first d pool) k' t1 in (d :: ds, t2)
      | None => ([], t1)
      end
  end.

Definition tape_sample (n k : nat) (t : list nat) : list nat * list nat :=
  tape_pick (seq 0 n) k t.

#[export] Instance tape_source : RandomSource (list nat) := {
  draw := tape_draw;
  sample := tape_sample
}.

(* ===================================================================== *)
(** ** class Game *)

(** The attributes of a [Game].  The two arrays of the [state] dictionary
    are the fields [prizes] and [visible]. *)
Record Game : Type := mkGame {
  min_doors : nat;
  max_doors : nat;
  verbose : nat;
  rerolls : nat;
  choice : option nat;
  win : bool;
  args : option nat * option nat;
  n_doors : nat;
  n_goats : nat;
  prizes : list bool;
  visible : list bool
}.

Definition set_choice (c : option nat) (g : Game) : Game :=
  mkGame (min_doors g) (max_doors g) (verbose g) (rerolls g) c (win g)
         (args g) (n_doors g) (n_goats g) (prizes g) (visible g).

Definition set_win (w : bool) (g : Game) : Game :=
  mkGame (min_doors g) (max_doors g) (verbose g) (rerolls g) (choice g) w
         (args g) (n_doors g) (n_goats g) (prizes g) (visible g).

Definition set_rerolls (k : nat) (g : Game) : Game :=
  mkGame (min_doors g) (max_doors g) (verbose g) k (choice g) (win g)
         (args g) (n_doors g) (n_goats g) (prizes g) (visible g).

Definition set_visible (v : list bool) (g : Game) : Game :=
  mkGame (min_doors g) (max_doors g) (verbose g) (rerolls g) (choice g) (win g)
         (args g) (n_doors g) (n_goats g) (prizes g) v.

(** The three ways control leaves the [if]/[elif]/[else] of [reveal]. *)
Inductive reveal_branch : Type :=
  | RerollRequired                 (* [return True] *)
  | Options (options : list nat)   (* [options] is bound *)
  | Unsupported.                   (* only the diagnostic was printed *)

Section game.
Context {R : Type} `{RandomSource R}.

(** [Game.initialize_state(self, n_doors, n_goats)].  The settings
    [min_doors], [max_doors], [verbose] and the counter [rerolls] are
    kept.  [door_spread] is [max_doors - min_doors + 1]; a value below 1
    makes [rng.integers] raise, so it is computed on [nat] with the
    addition first. *)
Definition initialize_state (nd ng : option nat) (g : Game) (r : R)
  : result (Game * R) :=
  let door_spread := max_doors g + 1 - min_doors g in
  '(doors, r1) ← match truthy nd with
                 | Some d => Ok (d, r)
                 | None => '(x, r') ← rng_integers door_spread r;
                           Ok (x + min_doors g, r')
                 end;
  '(goats, r2) ← match truthy ng with
                 | Some k => Ok (k, r1)
                 | None => rng_integers (doors + 1) r1
                 end;
  '(goatidxs, r3) ← rng_choice doors goats r2;
  p ← array_set_all (replicate doors true) goatidxs false;
  Ok (mkGame (min_doors g) (max_doors g) (verbose g) (rerolls g)
             None false (nd, ng) doors goats p (replicate doors false), r3).

(** [Game.__init__(self, rng, n_doors, n_goats, max_doors, verbose)]. *)
Definition Game_init (nd ng maxd : option nat) (verb : nat) (r : R)
  : result (Game * R) :=
  initialize_state nd ng
    (mkGame 3 (py_or_nat maxd 3) verb 0 None false (nd, ng) 0 0 [] []) r.

(** The closing assignment of [choose]:
    [self.choice = options[self.rng.integers(len(options))]]. *)
Definition choose_from (options : list nat) (g : Game) (r : R)
  : result (Game * R) :=
  '(x, r') ← rng_integers (length options) r;
  d ← subscript options x;
  Ok (set_choice (Some d) g, r').

(** [Game.choose(self, strategy)].  The product of the two arrays is
    taken entry by entry; the arrays have the same length in every game
    that [initialize_state] builds (see [wf]). *)
Definition choose (strategy : string) (g : Game) (r : R) : result (Game * R) :=
  let prizeviz := zip_with andb (visible g) (prizes g) in
  g1 ← (if any prizeviz
        then d ← index_true prizeviz; Ok (set_choice (Some d) g)
        else Ok g);
  if String.eqb strategy "stay" then Ok (g1, r)
  else
    let options := indices false (visible g1) in
    if String.eqb strategy "random" then choose_from options g1 r
    else if String.eqb strategy "update" then
      let options' := match choice g1 with
                      | Some c => remove_first c options
                      | None => options
                      end in
      choose_from options' g1 r
    else Ok (g1, r).

(** The candidate doors of [reveal], by host strategy. *)
Definition reveal_options (strategy : string) (g : Game) : reveal_branch :=
  if String.eqb strategy "goat" then
    let options := indices false (prizes g) in
    let options := if choice_in (choice g) options
                   then match choice g with
                        | Some c => remove_first c options
                        | None => options
                        end
                   else options in
    if decide (length options = 0) then RerollRequired else Options options
  else if String.eqb strategy "random" then
    Options (filter (fun idx => Some idx ≠ choice g) (seq 0 (n_doors g)))
  else Unsupported.

(** [Game.reveal(self, strategy)]; the boolean is the truth value of the
    returned object ([True], or [None] at the end of the body). *)
Definition reveal (strategy : string) (g : Game) (r : R)
  : result (bool * Game * R) :=
  match reveal_options strategy g with
  | RerollRequired => Ok (true, g, r)
  | Options options =>
      '(x, r') ← rng_integers (length options) r;
      d ← subscript options x;
      v ← array_set (visible g) d true;
      Ok (false, set_visible v g, r')
  | Unsupported => Raise UnboundLocalError
  end.

(** [Game.play(self, player, host)].  [depth] is the number of frames
    the interpreter still allows: the method calls itself on a reroll.
    The branch for an unset choice at [prizes[self.choice]] is never
    taken: the first [choose('random')] sets a choice or raises (see
    [choose_random_closed]), and nothing afterwards unsets it. *)
Fixpoint play (depth : nat) (player host : string) (g : Game) (r : R)
  : result (bool * Game * R) :=
  match depth with
  | 0 => Raise RecursionError
  | S depth' =>
      '(g1, r1) ← choose "random" g r;
      '(reroll, g2, r2) ← reveal host g1 r1;
      if (reroll : bool) then
        let g3 := set_rerolls (rerolls g2 + 1) g2 in
        '(g4, r4) ← initialize_state (args g3).1 (args g3).2 g3 r2;
        play depth' player host g4 r4
      else
        '(g3, r3) ← choose player g2 r2;
        w ← match choice g3 with
            | Some c => subscript (prizes g3) c
            | None => Raise TypeError
            end;
        Ok (w, set_win w g3, r3)
  end.

(** How many times [play] restarts the game before it returns: the
    depth of its recursion, counted beside the code. *)
Fixpoint play_restarts (depth : nat) (host : string) (g : Game) (r : R) : nat :=
  match depth with
  | 0 => 0
  | S depth' =>
      match choose "random" g r with
      | Ok (g1, r1) =>
          match reveal host g1 r1 with
          | Ok (true, g2, r2) =>
              let g3 := set_rerolls (rerolls g2 + 1) g2 in
              match initialize_state (args g3).1 (args g3).2 g3 r2 with
              | Ok (g4, r4) => S (play_restarts depth' host g4 r4)
              | Raise _ => 1
              end
          | _ => 0
          end
      | Raise _ => 0
      end
  end.
End game.

(* ===================================================================== *)
(** ** class GameSeries *)

(** The configuration dictionary, with the keys of the literal in
    [run.py]: [config['rules']] and [config['strategies']] are passed to
    [Game] and [Game.play] as keyword arguments. *)
Record Rules : Type := mkRules {
  rules_n_doors : option nat;
  rules_n_goats : option nat;
  rules_max_doors : option nat
}.

Record Strategies : Type := mkStrategies {
  player : string;
  host : string
}.

Record Config : Type := mkConfig {
  games : nat;
  rules : Rules;
  strategies : Strategies
}.

(** The attributes of a [GameSeries]; [stats] is a [defaultdict(int)]: a
    key that is absent reads [0]. *)
Record GameSeries : Type := mkSeries {
  config : Config;
  history : list Game;
  stats : gmap string nat
}.

(** [self.stats[key]]. *)
Definition stat (key : string) (st : gmap string nat) : nat :=
  default 0 (st !! key).

(** [self.stats[key] += v]: the key exists afterwards, also for [v = 0]. *)
Definition stat_add (key : string) (v : nat) (st : gmap string nat)
  : gmap string nat :=
  <[key := stat key st + v]> st.

(** The keys [f"{ct}_goats"] and [f"{ct}_goats_wins"]. *)
Definition goats_key (ct : nat) : string := pretty ct +:+ "_goats".
Definition goats_wins_key (ct : nat) : string := pretty ct +:+ "_goats_wins".

(** [GameSeries.__init__(self, config)]. *)
Definition GameSeries_init (cfg : Config) : GameSeries :=
  let rl := rules cfg in
  let rl' := mkRules (rules_n_doors rl) (rules_n_goats rl)
                     (py_or (rules_max_doors rl) (rules_n_doors rl)) in
  mkSeries (mkConfig (games cfg) rl' (strategies cfg)) [] ∅.

(** One pass of the inner loop of [simulate], for bucket [ct]. *)
Definition count_bucket (game : Game) (ct : nat) (st : gmap string nat)
  : gmap string nat :=
  let hit := bool_decide (ct = n_goats game) in
  let st1 := stat_add (goats_key ct) (Nat.b2n hit) st in
  stat_add (goats_wins_key ct) (Nat.b2n (hit && win game)) st1.

(** [for ct in range(bound): ...], buckets in increasing order. *)
Definition count_buckets (game : Game) (bound : nat) (st : gmap string nat)
  : gmap string nat :=
  foldl (fun acc ct => count_bucket game ct acc) st (seq 0 bound).

(** The sum of the bucket totals over [0 .. maxd]. *)
Definition bucket_sum (maxd : nat) (st : gmap string nat) : nat :=
  sum_list ((fun ct => stat (goats_key ct) st) <$> seq 0 (maxd + 1)).

Section series.
Context {R : Type} `{RandomSource R}.

(** The body of the [for game_idx in range(n)] loop of [simulate]. *)
Definition simulate_step (depth : nat) (s : GameSeries) (r : R)
  : result (GameSeries * R) :=
  let rl := rules (config s) in
  let sg := strategies (config s) in
  '(game0, r0) ← Game_init (rules_n_doors rl) (rules_n_goats rl)
                           (rules_max_doors rl) 0 r;
  '(_, game, r1) ← play depth (player sg) (host sg) game0 r0;
  let st := stat_add "win" (Nat.b2n (win game)) (stats s) in
  let st := stat_add "rerolls" (rerolls game) st in
  match rules_max_doors rl with
  | None => Raise TypeError
  | Some maxd =>
      Ok (mkSeries (config s) (history s ++ [game])
                   (count_buckets game (maxd + 1) st), r1)
  end.

(** [n] passes of the loop. *)
Fixpoint simulate_loop (depth n : nat) (s : GameSeries) (r : R)
  : result (GameSeries * R) :=
  match n with
  | 0 => Ok (s, r)
  | S n' =>
      '(s1, r1) ← simulate_step depth s r;
      simulate_loop depth n' s1 r1
  end.

(** The number of trials [simulate(n)] runs: [n or self.config['games']]. *)
Definition trials (n : option nat) (s : GameSeries) : nat :=
  py_or_nat n (games (config s)).

(** [GameSeries.simulate(self, n)]. *)
Definition simulate (depth : nat) (n : option nat) (s : GameSeries) (r : R)
  : result (GameSeries * R) :=
  simulate_loop depth (trials n s) s r.

(** The restarts of each trial of the loop, in order, counted beside
    the code. *)
Fixpoint loop_restarts (depth n : nat) (s : GameSeries) (r : R) : list nat :=
  match n with
  | 0 => []
  | S n' =>
      let rl := rules (config s) in
      match Game_init (rules_n_doors rl) (rules_n_goats rl)
                      (rules_max_doors rl) 0 r with
      | Ok (game0, r0) =>
          play_restarts depth (host (strategies (config s))) game0 r0 ::
          match simulate_step depth s r with
          | Ok (s1, r1) => loop_restarts depth n' s1 r1
          | Raise _ => []
          end
      | Raise _ => []
      end
  end.
End series.

(** Well-formed door layout: both arrays have [n_doors] entries. *)
Definition wf (g : Game) : Prop :=
  length (prizes g) = n_doors g /\ length (visible g) = n_doors g.

(** A dealt layout: well formed, with exactly [n_goats] goats. *)
Definition dealt (g : Game) : Prop :=
  wf g /\ count false (prizes g) = n_goats g /\ n_goats g <= n_doors g.

(** The largest door count a game of these rules can have: [n_doors] when
    it is set, else the upper end of the randomisation. *)
Definition door_cap (rl : Rules) : nat :=
  match truthy (rules_n_doors rl) with
  | Some d => d
  | None => py_or_nat (rules_max_doors rl) 3
  end.

(** The characters of a string, to compare keys from the right. *)
Abbreviation chars := Strings.String.list_ascii_of_string.

(** A game on three or more doors given by its two arrays and the
    player's choice, as [initialize_state] and [choose] leave it. *)
Definition layout (p v : list bool) (c : option nat) : Game :=
  mkGame 3 (length p) 0 0 c false (Some (length p), Some (count false p))
         (length p) (count false p) p v.

(** The configuration literal of [run.py]. *)
Definition run_config : Config :=
  mkConfig 10000 (mkRules (Some 3) None None) (mkStrategies "update" "goat").

(** A game that one pass of the loop of [simulate] can store: built by
    [Game] from the rules and returned by [play] under the strategies. *)
Definition played_trial (R : Type) `{RandomSource R} (depth : nat) (cfg : Config)
    (game : Game) : Prop :=
  exists (r0 : R) game0 r1 w r2,
    Game_init (rules_n_doors (rules cfg)) (rules_n_goats (rules cfg))
              (rules_max_doors (rules cfg)) 0 r0 = Ok (game0, r1) /\
    play depth (player (strategies cfg)) (host (strategies cfg)) game0 r1
    = Ok (w, game, r2).

(** Three games on five doors with two goats each, counted in the
    buckets 0 to 3. *)
Definition wide_doors_config : Config :=
  mkConfig 3 (mkRules (Some 5) (Some 2) (Some 3)) (mkStrategies "stay" "goat").

(** Inputs of the worked examples: a series of two games with one goat
    each, a series of one game with the rules of [run.py], a series with
    more doors than buckets, and tapes for them. *)
Definition one_goat_config : Config :=
  mkConfig 2 (mkRules (Some 3) (Some 1) None) (mkStrategies "update" "goat").
Definition one_goat_tape : list nat := [0; 0; 0; 1; 0; 0; 0; 1; 0; 0].
Definition single_game_config : Config :=
  mkConfig 1 (rules run_config) (strategies run_config).
Definition two_games_tape : list nat := [2; 1; 1; 0; 0; 0; 2; 1; 1; 0; 0; 0].
Definition five_doors_config : Config :=
  mkConfig 1 (mkRules (Some 5) (Some 5) (Some 3)) (mkStrategies "stay" "goat").

(* ===================================================================== *)
(** ** Results, lists and arrays *)

Lemma bind_Ok {A B : Type} (m : result A) (k : A -> result B) (b : B) :
  m ≫= k = Ok b <-> exists a, m = Ok a /\ k a = Ok b.
Proof.
  destruct m as [a|e]; simpl; split.
  - eauto.
  - by intros (a' & [= <-] & Hk).
  - done.
  - by intros (a' & [=] & _).
Qed.

Lemma remove_first_subseteq x l : remove_first x l ⊆ l.
Proof.
  induction l as [|y l IH]; simpl; [done|].
  case_decide; set_solver.
Qed.

Lemma remove_first_NoDup x l : NoDup l -> NoDup (remove_first x l).
Proof.
  induction 1 as [|y l Hy Hl IH]; simpl; [constructor|].
  case_decide; [done|].
  constructor; [|done].
  intros Hin. apply Hy. by eapply remove_first_subseteq.
Qed.

Lemma remove_first_not_elem x l : NoDup l -> x ∉ remove_first x l.
Proof.
  induction 1 as [|y l Hy Hl IH]; simpl; [set_solver|].
  case_decide; [by subst|set_solver].
Qed.

Lemma remove_first_elem x y l : y ∈ l -> y ≠ x -> y ∈ remove_first x l.
Proof.
  induction l as [|z l IH]; simpl; [done|].
  intros Hy Hne. case_decide; set_solver.
Qed.

Lemma remove_first_length x l :
  x ∈ l -> S (length (remove_first x l)) = length l.
Proof.
  induction l as [|y l IH]; simpl; [by intros ?%elem_of_nil|].
  intros Hx. case_decide; [done|].
  simpl. f_equal. apply IH. set_solver.
Qed.

Lemma elem_of_indices_from want i l d :
  d ∈ indices_from want i l <-> i <= d /\ l !! (d - i) = Some want.
Proof.
  revert i. induction l as [|b l IH]; intros i; simpl.
  - rewrite elem_of_nil. naive_solver.
  - destruct (eqb b want) eqn:Hb.
    + apply eqb_prop in Hb as ->.
      rewrite elem_of_cons, IH. split.
      * intros [->|[Hle Hl]].
        -- by rewrite Nat.sub_diag.
        -- split; [lia|]. by replace (d - i) with (S (d - S i)) by lia.
      * intros [Hle Hl]. destruct (decide (d = i)) as [->|Hne]; [by left|].
        right. split; [lia|].
        by replace (d - i) with (S (d - S i)) in Hl by lia.
    + apply eqb_false_iff in Hb.
      rewrite IH. split.
      * intros [Hle Hl]. split; [lia|].
        by replace (d - i) with (S (d - S i)) by lia.
      * intros [Hle Hl]. destruct (decide (d = i)) as [->|Hne].
        -- rewrite Nat.sub_diag in Hl. simpl in Hl. congruence.
        -- split; [lia|].
           by replace (d - i) with (S (d - S i)) in Hl by lia.
Qed.

Lemma elem_of_indices want l d :
  d ∈ indices want l <-> l !! d = Some want.
Proof.
  unfold indices. rewrite elem_of_indices_from, Nat.sub_0_r. naive_solver lia.
Qed.

Lemma indices_from_NoDup want i l : NoDup (indices_from want i l).
Proof.
  revert i. induction l as [|b l IH]; intros i; simpl; [constructor|].
  destruct (eqb b want); [|done].
  constructor; [|done].
  rewrite elem_of_indices_from. lia.
Qed.

Lemma indices_NoDup want l : NoDup (indices want l).
Proof. apply indices_from_NoDup. Qed.

Lemma indices_from_length want i l :
  length (indices_from want i l) = count want l.
Proof.
  unfold count. revert i. induction l as [|b l IH]; intros i; simpl; [done|].
  rewrite filter_cons. destruct (eqb b want) eqn:Hb.
  - apply eqb_prop in Hb as ->. rewrite decide_True by done. simpl. by rewrite IH.
  - apply eqb_false_iff in Hb. rewrite decide_False by done. apply IH.
Qed.

Lemma indices_lt want l d : d ∈ indices want l -> d < length l.
Proof. rewrite elem_of_indices. apply lookup_lt_Some. Qed.

Lemma count_cons b x l :
  count b (x :: l) = (if decide (x = b) then 1 else 0) + count b l.
Proof. unfold count. rewrite filter_cons. by case_decide. Qed.

Lemma count_replicate_eq b n : count b (replicate n b) = n.
Proof. induction n as [|n IH]; simpl; [done|]. rewrite count_cons, decide_True by done. by rewrite IH. Qed.

Lemma count_replicate_ne b n : count (negb b) (replicate n b) = 0.
Proof.
  induction n as [|n IH]; simpl; [done|].
  rewrite count_cons, decide_False by (by destruct b). by rewrite IH.
Qed.

Lemma count_true_false l : count true l + count false l = length l.
Proof.
  induction l as [|b l IH]; simpl; [done|].
  rewrite !count_cons. repeat case_decide; destruct b; simplify_eq; lia.
Qed.

Lemma count_insert_false l i :
  l !! i = Some true -> count false (<[i := false]> l) = S (count false l).
Proof.
  revert i. induction l as [|b l IH]; intros [|i]; simpl; try done.
  - intros [= ->]. by rewrite !count_cons.
  - intros Hl. rewrite !count_cons, IH by done. lia.
Qed.

Lemma array_set_Ok a i v a' :
  array_set a i v = Ok a' <-> i < length a /\ a' = <[i := v]> a.
Proof. unfold array_set. case_decide; naive_solver. Qed.

Lemma array_set_all_false a idxs a' :
  NoDup idxs ->
  (forall i, i ∈ idxs -> a !! i = Some true) ->
  array_set_all a idxs false = Ok a' ->
  length a' = length a /\ count false a' = count false a + length idxs.
Proof.
  intros Hnd. revert a. induction Hnd as [|i idxs Hi Hnd IH]; intros a Hall; simpl.
  - intros [= <-]. split; [done|lia].
  - intros Hset. apply bind_Ok in Hset as (a1 & Ha1 & Hset).
    apply array_set_Ok in Ha1 as [Hlt ->].
    apply IH in Hset as [Hlen Hcnt].
    + rewrite length_insert in Hlen. split; [done|].
      rewrite Hcnt, count_insert_false by (apply Hall; set_solver). lia.
    + intros j Hj. rewrite list_lookup_insert_ne by set_solver.
      apply Hall. set_solver.
Qed.

Lemma array_set_all_length a idxs v a' :
  array_set_all a idxs v = Ok a' -> length a' = length a.
Proof.
  revert a. induction idxs as [|i idxs IH]; intros a; simpl.
  - by intros [= <-].
  - intros Hset. apply bind_Ok in Hset as (a1 & Ha1 & Hset).
    apply array_set_Ok in Ha1 as [Hlt ->].
    apply IH in Hset. by rewrite length_insert in Hset.
Qed.

(* ===================================================================== *)
(** ** The tape is a lawful random source *)

Lemma tape_draw_lt bound t : 0 < bound -> (tape_draw bound t).1 < bound.
Proof.
  intros Hpos. destruct t as [|x t]; simpl; [done|].
  apply Nat.mod_upper_bound. lia.
Qed.

Lemma tape_pick_spec pool k t :
  NoDup pool -> k <= length pool ->
  length (tape_pick pool k t).1 = k /\
  NoDup (tape_pick pool k t).1 /\
  (tape_pick pool k t).1 ⊆ pool.
Proof.
  revert pool t. induction k as [|k IH]; intros pool t Hnd Hk; simpl.
  - split; [done|]. split; [constructor|set_solver].
  - destruct (tape_draw (length pool) t) as [x t1] eqn:Hdraw.
    assert (x < length pool) as Hx.
    { pose proof (tape_draw_lt (length pool) t ltac:(lia)) as Hlt.
      by rewrite Hdraw in Hlt. }
    destruct (lookup_lt_is_Some_2 pool x Hx) as [d Hd]. rewrite Hd.
    assert (d ∈ pool) as Hin by (by eapply list_elem_of_lookup_2).
    pose proof (remove_first_length d pool Hin) as Hlen.
    destruct (IH (remove_first d pool) t1) as (IH1 & IH2 & IH3).
    { by apply remove_first_NoDup. }
    { lia. }
    destruct (tape_pick (remove_first d pool) k t1) as [ds t2]. simpl in *.
    split; [by rewrite IH1|]. split.
    + constructor; [|done]. intros Hds. apply IH3 in Hds.
      by apply remove_first_not_elem in Hds.
    + intros y [->|Hy]%elem_of_cons; [done|].
      by eapply remove_first_subseteq, IH3.
Qed.

#[export] Instance tape_laws : RandomSourceLaws (list nat).
Proof.
  split.
  - apply tape_draw_lt.
  - intros n k t Hk. apply tape_pick_spec; [apply NoDup_seq|by rewrite length_seq].
  - intros n k t Hk. apply tape_pick_spec; [apply NoDup_seq|by rewrite length_seq].
  - intros n k t Hk. apply Forall_forall. intros i Hi.
    eapply (proj2 (proj2 (tape_pick_spec (seq 0 n) k t _ _))) in Hi.
    apply elem_of_seq in Hi. lia.
    Unshelve. apply NoDup_seq. by rewrite length_seq.
Qed.

(* ===================================================================== *)
(** ** The keys of the statistics *)

Lemma list_ascii_of_string_app s1 s2 :
  chars (s1 +:+ s2) = (chars s1 ++ chars s2)%list.
Proof. induction s1 as [|c s1 IH]; simpl; [done|]. by rewrite <- IH. Qed.

Lemma list_ascii_of_string_inj s1 s2 :
  chars s1 = chars s2 -> s1 = s2.
Proof.
  intros Heq. rewrite <- (Strings.String.string_of_list_ascii_of_string s1),
    <- (Strings.String.string_of_list_ascii_of_string s2). by rewrite Heq.
Qed.

(** Two strings with different endings differ: compare them from the
    right. *)
Lemma suffix_ne (a b s1 s2 : string) :
  (forall l1 l2, (reverse (chars s1) ++ l1)%list
                 ≠ (reverse (chars s2) ++ l2)%list) ->
  a +:+ s1 ≠ b +:+ s2.
Proof.
  intros Hne Heq. apply (f_equal chars) in Heq.
  rewrite !list_ascii_of_string_app in Heq.
  apply (f_equal reverse) in Heq. rewrite !reverse_app in Heq.
  by eapply Hne.
Qed.

Lemma goats_key_inj a b : goats_key a = goats_key b -> a = b.
Proof.
  unfold goats_key. intros Heq.
  apply (f_equal chars) in Heq.
  rewrite !list_ascii_of_string_app in Heq.
  apply app_inv_tail, list_ascii_of_string_inj in Heq.
  by apply (inj pretty).
Qed.

Lemma goats_key_ne_wins a b : goats_key a ≠ goats_wins_key b.
Proof. apply suffix_ne. intros l1 l2. by cbv. Qed.

Lemma goats_key_ne_win a : goats_key a ≠ "win".
Proof. apply (suffix_ne _ "" _ "win"). intros l1 l2. by cbv. Qed.

Lemma goats_key_ne_rerolls a : goats_key a ≠ "rerolls".
Proof. apply (suffix_ne _ "" _ "rerolls"). intros l1 l2. by cbv. Qed.

Lemma goats_wins_key_ne_rerolls a : goats_wins_key a ≠ "rerolls".
Proof. apply (suffix_ne _ "" _ "rerolls"). intros l1 l2. by cbv. Qed.

(* ===================================================================== *)
(** ** One game *)

Section game_facts.
Context {R : Type} `{RandomSource R}.

Lemma rng_integers_Ok bound (r : R) x r' :
  rng_integers bound r = Ok (x, r') <-> 0 < bound /\ draw bound r = (x, r').
Proof.
  unfold rng_integers. case_decide; split.
  - done.
  - intros [Hpos _]. lia.
  - intros [= Hd]. split; [lia|done].
  - by intros [_ ->].
Qed.

Lemma rng_choice_Ok n k (r : R) l r' :
  rng_choice n k r = Ok (l, r') <-> k <= n /\ sample n k r = (l, r').
Proof.
  unfold rng_choice. case_decide; split.
  - intros [= Hs]. done.
  - by intros [_ ->].
  - done.
  - intros [Hle _]. lia.
Qed.

Lemma subscript_Ok {A} (l : list A) i x : subscript l i = Ok x <-> l !! i = Some x.
Proof. unfold subscript. destruct (l !! i); naive_solver. Qed.

(** [choose] only ever assigns [self.choice]. *)
Lemma choose_from_frame options g (r : R) g' r' :
  choose_from options g r = Ok (g', r') ->
  exists d, d ∈ options /\ g' = set_choice (Some d) g.
Proof.
  unfold choose_from. intros Hc.
  apply bind_Ok in Hc as ([x r1] & _ & Hc).
  apply bind_Ok in Hc as (d & Hd%subscript_Ok & [= <- <-]).
  exists d. split; [by eapply list_elem_of_lookup_2|done].
Qed.

Lemma choose_frame strategy g (r : R) g' r' :
  choose strategy g r = Ok (g', r') -> exists c, g' = set_choice c g.
Proof.
  unfold choose. intros Hc.
  apply bind_Ok in Hc as (g1 & Hg1 & Hc).
  assert (exists c, g1 = set_choice c g) as [c ->].
  { destruct (any _).
    - apply bind_Ok in Hg1 as (d & _ & [= <-]). eauto.
    - injection Hg1 as <-. exists (choice g). by destruct g. }
  destruct (String.eqb strategy "stay"); [injection Hc as <- <-; eauto|].
  destruct (String.eqb strategy "random").
  { apply choose_from_frame in Hc as (d & _ & ->). eauto. }
  destruct (String.eqb strategy "update").
  { apply choose_from_frame in Hc as (d & _ & ->). eauto. }
  injection Hc as <- <-. eauto.
Qed.

(** The first pick of [play] always sets a choice, and a closed door. *)
Lemma choose_random_closed g (r : R) g' r' :
  choose "random" g r = Ok (g', r') ->
  exists d, visible g !! d = Some false /\ g' = set_choice (Some d) g.
Proof.
  unfold choose. intros Hc.
  apply bind_Ok in Hc as (g1 & Hg1 & Hc). simpl in Hc.
  assert (exists c, g1 = set_choice c g) as [c ->].
  { destruct (any _).
    - apply bind_Ok in Hg1 as (d & _ & [= <-]). eauto.
    - injection Hg1 as <-. exists (choice g). by destruct g. }
  apply choose_from_frame in Hc as (d & Hd%elem_of_indices & ->). eauto.
Qed.

(** Every candidate of the host differs from the player's choice. *)
Lemma reveal_options_spec strategy g options d :
  reveal_options strategy g = Options options -> d ∈ options ->
  choice g ≠ Some d /\
  (strategy = "goat" -> prizes g !! d = Some false) /\
  (strategy = "random" -> d < n_doors g).
Proof.
  unfold reveal_options.
  destruct (String.eqb_spec strategy "goat") as [->|Hg].
  - case_decide; [done|]. intros [= <-] Hd.
    assert (d ∈ indices false (prizes g) /\ choice g ≠ Some d) as [Hin Hne].
    { unfold choice_in in Hd. destruct (choice g) as [c|] eqn:Hc; [|done].
      case_bool_decide as Hcin.
      - split; [by eapply remove_first_subseteq|].
        intros [= ->]. by eapply remove_first_not_elem, Hd; apply indices_NoDup.
      - split; [done|]. intros [= ->]. done. }
    apply elem_of_indices in Hin. done.
  - destruct (String.eqb_spec strategy "random") as [->|Hr]; [|done].
    intros [= <-] Hd. apply list_elem_of_filter in Hd as [Hne Hd].
    apply elem_of_seq in Hd. split; [congruence|]. split; [done|]. intros _. lia.
Qed.

(** A successful [reveal] either asks for a reroll and changes nothing,
    or opens one candidate door and changes nothing else. *)
Lemma reveal_Ok strategy g (r : R) b g' r' :
  reveal strategy g r = Ok (b, g', r') ->
  (b = true /\ g' = g /\ r' = r /\ reveal_options strategy g = RerollRequired) \/
  (b = false /\ exists options d,
      reveal_options strategy g = Options options /\ d ∈ options /\
      d < length (visible g) /\
      g' = set_visible (<[d := true]> (visible g)) g).
Proof.
  unfold reveal. destruct (reveal_options strategy g) as [|options|] eqn:Hopt.
  - intros [= <- <- <-]. by left.
  - intros Hr. right.
    apply bind_Ok in Hr as ([x r1] & _ & Hr).
    apply bind_Ok in Hr as (d & Hd%subscript_Ok & Hr).
    apply bind_Ok in Hr as (v & [Hlt ->]%array_set_Ok & [= <- <- <-]).
    split; [done|]. exists options, d.
    split; [done|]. split; [by eapply list_elem_of_lookup_2|done].
  - done.
Qed.

(** What [initialize_state] keeps and what it resets, for any source. *)
Lemma initialize_state_frame nd ng g (r : R) g' r' :
  initialize_state nd ng g r = Ok (g', r') ->
  visible g' = replicate (n_doors g') false /\ length (prizes g') = n_doors g' /\
  choice g' = None /\ rerolls g' = rerolls g /\ args g' = (nd, ng) /\
  min_doors g' = min_doors g /\ max_doors g' = max_doors g.
Proof.
  unfold initialize_state. intros Hi.
  apply bind_Ok in Hi as ([doors r1] & _ & Hi).
  apply bind_Ok in Hi as ([goats r2] & _ & Hi).
  apply bind_Ok in Hi as ([goatidxs r3] & _ & Hi).
  apply bind_Ok in Hi as (p & Hp%array_set_all_length & [= <- <-]). simpl.
  by rewrite length_replicate in Hp.
Qed.

(** The counter [rerolls] grows by one for each restart of [play]. *)
Lemma play_rerolls depth pl ho g (r : R) w g' r' :
  play depth pl ho g r = Ok (w, g', r') ->
  rerolls g' = rerolls g + play_restarts depth ho g r.
Proof.
  revert g r. induction depth as [|depth IH]; intros g r; simpl; [done|].
  intros Hp.
  apply bind_Ok in Hp as ([g1 r1] & Hch & Hp). rewrite Hch.
  apply choose_frame in Hch as [c1 ->].
  apply bind_Ok in Hp as ([[reroll g2] r2] & Hrev & Hp). rewrite Hrev.
  destruct reroll.
  - apply bind_Ok in Hp as ([g4 r4] & Hinit & Hp). rewrite Hinit.
    apply IH in Hp. rewrite Hp.
    apply initialize_state_frame in Hinit as (_ & _ & _ & -> & _). simpl.
    apply reveal_Ok in Hrev as [(_ & -> & _)|[[=] _]]. simpl. lia.
  - apply reveal_Ok in Hrev as [[[=] _]|[_ (options & d & _ & _ & Hlt & ->)]].
    apply bind_Ok in Hp as ([g3 r3] & [c3 ->]%choose_frame & Hp).
    apply bind_Ok in Hp as (w' & _ & [= <- <- <-]). simpl. lia.
Qed.

(** [play] keeps the request and the settings of the game. *)
Lemma play_frame depth pl ho g (r : R) w g' r' :
  play depth pl ho g r = Ok (w, g', r') ->
  args g' = args g /\ min_doors g' = min_doors g /\ max_doors g' = max_doors g.
Proof.
  revert g r. induction depth as [|depth IH]; intros g r; simpl; [done|].
  intros Hp.
  apply bind_Ok in Hp as ([g1 r1] & [c1 ->]%choose_frame & Hp).
  apply bind_Ok in Hp as ([[reroll g2] r2] & Hrev & Hp).
  destruct reroll.
  - apply bind_Ok in Hp as ([g4 r4] & Hinit & Hp).
    apply reveal_Ok in Hrev as [(_ & -> & _)|[[=] _]]. simpl in Hinit.
    apply IH in Hp as (-> & -> & ->).
    apply initialize_state_frame in Hinit as (_ & _ & _ & _ & -> & -> & ->).
    simpl. by destruct (args g).
  - apply reveal_Ok in Hrev as [[[=] _]|[_ (options & d & _ & _ & Hlt & ->)]].
    apply bind_Ok in Hp as ([g3 r3] & [c3 ->]%choose_frame & Hp).
    by apply bind_Ok in Hp as (w' & _ & [= <- <- <-]).
Qed.
End game_facts.

Section trial_facts.
Context {R : Type} `{RandomSourceLaws R}.

(** With a lawful source, [initialize_state] deals exactly [n_goats]
    goats over [n_doors] doors, and no more doors than requested. *)
Lemma initialize_state_dealt nd ng g (r : R) g' r' :
  initialize_state nd ng g r = Ok (g', r') ->
  dealt g' /\
  n_doors g' <= match truthy nd with
                | Some d => d
                | None => max_doors g
                end.
Proof.
  unfold initialize_state. intros Hi.
  apply bind_Ok in Hi as ([doors r1] & Hdoors & Hi).
  apply bind_Ok in Hi as ([goats r2] & _ & Hi).
  apply bind_Ok in Hi as ([goatidxs r3] & [Hle Hs]%rng_choice_Ok & Hi).
  apply bind_Ok in Hi as (p & Hp & [= <- <-]). simpl.
  assert (goatidxs = (sample doors goats r2).1) as -> by (by rewrite Hs).
  split.
  - apply array_set_all_false in Hp as [Hlen Hcnt].
    + rewrite length_replicate in Hlen.
      rewrite (count_replicate_ne true), sample_length in Hcnt by done.
      unfold dealt, wf. simpl. by rewrite length_replicate.
    + by apply sample_NoDup.
    + intros i Hi. apply lookup_replicate_2.
      pose proof (sample_lt doors goats r2 Hle) as Hall.
      by eapply Forall_forall in Hall.
  - destruct (truthy nd) as [d|]; [by injection Hdoors as <- _|].
    apply bind_Ok in Hdoors as ([x r0] & [Hpos Hx]%rng_integers_Ok & [= <- _]).
    pose proof (draw_lt _ r Hpos) as Hlt. rewrite Hx in Hlt. simpl in Hlt. lia.
Qed.

(** [play] returns a dealt layout whose door count is within the request. *)
Lemma play_dealt depth pl ho g (r : R) w g' r' :
  dealt g ->
  n_doors g <= match truthy (args g).1 with
               | Some d => d
               | None => max_doors g
               end ->
  play depth pl ho g r = Ok (w, g', r') ->
  dealt g' /\
  n_doors g' <= match truthy (args g).1 with
                | Some d => d
                | None => max_doors g
                end.
Proof.
  revert g r. induction depth as [|depth IH]; intros g r Hg Hcap; simpl; [done|].
  intros Hp.
  apply bind_Ok in Hp as ([g1 r1] & [c1 ->]%choose_frame & Hp).
  apply bind_Ok in Hp as ([[reroll g2] r2] & Hrev & Hp).
  destruct reroll.
  - apply bind_Ok in Hp as ([g4 r4] & Hinit & Hp).
    apply reveal_Ok in Hrev as [(_ & -> & _)|[[=] _]]. simpl in Hinit.
    pose proof (initialize_state_frame _ _ _ _ _ _ Hinit)
      as (_ & _ & _ & _ & Hargs & _ & Hmax).
    apply initialize_state_dealt in Hinit as [Hd Hc]. simpl in Hmax, Hc.
    apply IH in Hp; [|done|by rewrite Hargs, Hmax].
    by rewrite Hargs, Hmax in Hp.
  - apply reveal_Ok in Hrev as [[[=] _]|[_ (options & d & _ & _ & Hlt & ->)]].
    apply bind_Ok in Hp as ([g3 r3] & [c3 ->]%choose_frame & Hp).
    apply bind_Ok in Hp as (w' & _ & [= <- <- <-]).
    destruct Hg as ([Hp1 Hv1] & Hcnt & Hle).
    unfold dealt, wf. simpl. by rewrite length_insert.
Qed.
End trial_facts.

(* ===================================================================== *)
(** ** The statistics of a series *)

Lemma stat_add_eq key v st : stat key (stat_add key v st) = stat key st + v.
Proof. unfold stat_add, stat at 1. by rewrite lookup_insert_eq. Qed.

Lemma stat_add_ne key key' v st :
  key ≠ key' -> stat key' (stat_add key v st) = stat key' st.
Proof. intros Hne. unfold stat_add, stat at 1. by rewrite lookup_insert_ne. Qed.

Lemma stat_empty key : stat key ∅ = 0.
Proof. unfold stat. by rewrite lookup_empty. Qed.

Lemma count_bucket_goats game ct st b :
  stat (goats_key b) (count_bucket game ct st)
  = stat (goats_key b) st
    + (if decide (b = ct) then Nat.b2n (bool_decide (ct = n_goats game)) else 0).
Proof.
  unfold count_bucket.
  rewrite stat_add_ne by (intros Heq; by eapply goats_key_ne_wins).
  case_decide as Hb.
  - subst. apply stat_add_eq.
  - rewrite stat_add_ne; [lia|]. intros Heq%goats_key_inj. done.
Qed.

Lemma count_bucket_rerolls game ct st :
  stat "rerolls" (count_bucket game ct st) = stat "rerolls" st.
Proof.
  unfold count_bucket.
  rewrite !stat_add_ne; [done|apply goats_key_ne_rerolls|apply goats_wins_key_ne_rerolls].
Qed.

Lemma count_buckets_rerolls game bound st :
  stat "rerolls" (count_buckets game bound st) = stat "rerolls" st.
Proof.
  unfold count_buckets. generalize 0 as start. revert st.
  induction bound as [|bound IH]; intros st start; simpl; [done|].
  by rewrite IH, count_bucket_rerolls.
Qed.

Lemma count_buckets_goats_from game start bound st b :
  stat (goats_key b) (foldl (fun acc ct => count_bucket game ct acc) st (seq start bound))
  = stat (goats_key b) st
    + (if decide (start <= b < start + bound /\ b = n_goats game) then 1 else 0).
Proof.
  revert st start. induction bound as [|bound IH]; intros st start; simpl.
  - rewrite decide_False by lia. lia.
  - rewrite IH, count_bucket_goats.
    repeat case_decide; try case_bool_decide; simpl; lia.
Qed.

Lemma count_buckets_goats game bound st b :
  stat (goats_key b) (count_buckets game bound st)
  = stat (goats_key b) st
    + (if decide (b < bound /\ b = n_goats game) then 1 else 0).
Proof.
  unfold count_buckets. rewrite count_buckets_goats_from.
  repeat case_decide; lia.
Qed.

Lemma sum_list_indicator (f : nat -> nat) (k start len : nat) :
  sum_list ((fun b => f b + (if decide (b = k) then 1 else 0)) <$> seq start len)
  = sum_list (f <$> seq start len)
    + (if decide (start <= k < start + len) then 1 else 0).
Proof.
  revert start. induction len as [|len IH]; intros start; simpl.
  - rewrite decide_False by lia. lia.
  - rewrite IH. repeat case_decide; unfold fmap; lia.
Qed.

Lemma bucket_sum_count_buckets game maxd st :
  bucket_sum maxd (count_buckets game (maxd + 1) st)
  = bucket_sum maxd st + (if decide (n_goats game <= maxd) then 1 else 0).
Proof.
  unfold bucket_sum.
  transitivity (sum_list ((fun b => stat (goats_key b) st
      + (if decide (b = n_goats game) then 1 else 0)) <$> seq 0 (maxd + 1))).
  - f_equal. apply list_fmap_ext. intros i b Hb.
    apply lookup_seq in Hb as [-> Hlt]. rewrite count_buckets_goats.
    repeat case_decide; lia.
  - rewrite sum_list_indicator. repeat case_decide; lia.
Qed.

Lemma bucket_sum_stat_add key v maxd st :
  (forall b, goats_key b ≠ key) ->
  bucket_sum maxd (stat_add key v st) = bucket_sum maxd st.
Proof.
  intros Hne. unfold bucket_sum. f_equal. apply list_fmap_ext.
  intros i b _. apply stat_add_ne. intros Heq. by eapply Hne.
Qed.

Section series_facts.
Context {R : Type} `{RandomSource R}.

(** One completed pass of the loop of [simulate]. *)
Lemma simulate_step_Ok depth s (r : R) s' r' :
  simulate_step depth s r = Ok (s', r') ->
  exists game0 r0 w game maxd,
    Game_init (rules_n_doors (rules (config s))) (rules_n_goats (rules (config s)))
              (rules_max_doors (rules (config s))) 0 r = Ok (game0, r0) /\
    play depth (player (strategies (config s))) (host (strategies (config s)))
         game0 r0 = Ok (w, game, r') /\
    rules_max_doors (rules (config s)) = Some maxd /\
    s' = mkSeries (config s) (history s ++ [game])
           (count_buckets game (maxd + 1)
              (stat_add "rerolls" (rerolls game)
                 (stat_add "win" (Nat.b2n (win game)) (stats s)))).
Proof.
  unfold simulate_step. intros Hs.
  apply bind_Ok in Hs as ([game0 r0] & Hinit & Hs).
  apply bind_Ok in Hs as ([[w game] r1] & Hplay & Hs).
  destruct (rules_max_doors (rules (config s))) as [maxd|] eqn:Hmax; [|done].
  injection Hs as <- <-. by exists game0, r0, w, game, maxd.
Qed.

Lemma Game_init_rerolls nd ng maxd verb (r : R) g r' :
  Game_init nd ng maxd verb r = Ok (g, r') -> rerolls g = 0.
Proof.
  unfold Game_init. intros Hi.
  by apply initialize_state_frame in Hi as (_ & _ & _ & -> & _).
Qed.

Lemma simulate_loop_config depth n s (r : R) s' r' :
  simulate_loop depth n s r = Ok (s', r') -> config s' = config s.
Proof.
  revert s r. induction n as [|n IH]; intros s r; simpl.
  - by intros [= <- _].
  - intros Hl. apply bind_Ok in Hl as ([s1 r1] & Hstep & Hl).
    apply IH in Hl as ->.
    by apply simulate_step_Ok in Hstep as (? & ? & ? & ? & ? & _ & _ & _ & ->).
Qed.

(** Every pass appends one game, so [n] passes append [n]. *)
Lemma simulate_loop_history depth n s (r : R) s' r' :
  simulate_loop depth n s r = Ok (s', r') ->
  length (history s') = length (history s) + n.
Proof.
  revert s r. induction n as [|n IH]; intros s r; simpl.
  - intros [= <- _]. lia.
  - intros Hl. apply bind_Ok in Hl as ([s1 r1] & Hstep & Hl).
    apply IH in Hl as ->.
    apply simulate_step_Ok in Hstep as (? & ? & ? & ? & ? & _ & _ & _ & ->).
    simpl. rewrite length_app. simpl. lia.
Qed.

(** The games of a run carry their own restart counts, and the
    aggregator adds them up. *)
Lemma simulate_loop_rerolls depth n s (r : R) s' r' :
  simulate_loop depth n s r = Ok (s', r') ->
  exists new,
    history s' = (history s ++ new)%list /\
    rerolls <$> new = loop_restarts depth n s r /\
    stat "rerolls" (stats s')
    = stat "rerolls" (stats s) + sum_list (rerolls <$> new).
Proof.
  revert s r. induction n as [|n IH]; intros s r; simpl.
  - intros [= <- _]. exists []. rewrite app_nil_r. simpl. split; [done|]. split; [done|lia].
  - intros Hl. apply bind_Ok in Hl as ([s1 r1] & Hstep & Hl). rewrite Hstep.
    apply IH in Hl as (new & Hhist & Hmap & Hstat).
    apply simulate_step_Ok in Hstep
      as (game0 & r0 & w & game & maxd & Hinit & Hplay & Hmax & ->).
    rewrite Hinit. simpl in *.
    exists (game :: new). rewrite Hhist, <- app_assoc. split; [done|].
    pose proof (play_rerolls _ _ _ _ _ _ _ _ Hplay) as Hre.
    rewrite (Game_init_rerolls _ _ _ _ _ _ _ Hinit) in Hre. simpl in Hre.
    split.
    + rewrite fmap_cons. by rewrite Hmap, Hre.
    + rewrite Hstat, count_buckets_rerolls, stat_add_eq, stat_add_ne by done.
      rewrite fmap_cons. simpl. lia.
Qed.
End series_facts.

Section series_laws.
Context {R : Type} `{RandomSourceLaws R}.

(** A game that [simulate] ran has at most [door_cap] goats. *)
Lemma trial_goats_le_cap nd ng maxd verb depth pl ho (r : R) g0 r0 w g r1 :
  Game_init nd ng maxd verb r = Ok (g0, r0) ->
  play depth pl ho g0 r0 = Ok (w, g, r1) ->
  dealt g /\ n_goats g <= door_cap (mkRules nd ng maxd).
Proof.
  unfold Game_init. intros Hinit Hplay.
  pose proof (initialize_state_frame _ _ _ _ _ _ Hinit)
    as (_ & _ & _ & _ & Hargs & _ & Hmax).
  apply initialize_state_dealt in Hinit as [Hd Hcap]. simpl in Hmax, Hcap.
  eapply play_dealt in Hplay as [Hd' Hcap']; [|done|by rewrite Hargs, Hmax].
  rewrite Hargs, Hmax in Hcap'. simpl in Hcap'.
  split; [done|]. destruct Hd' as (_ & _ & Hle).
  unfold door_cap. simpl. lia.
Qed.

Lemma simulate_loop_bucket_sum depth n s (r : R) s' r' maxd :
  rules_max_doors (rules (config s)) = Some maxd ->
  door_cap (rules (config s)) <= maxd ->
  simulate_loop depth n s r = Ok (s', r') ->
  bucket_sum maxd (stats s') = bucket_sum maxd (stats s) + n.
Proof.
  revert s r. induction n as [|n IH]; intros s r Hmax Hcap; simpl.
  - intros [= <- _]. lia.
  - intros Hl. apply bind_Ok in Hl as ([s1 r1] & Hstep & Hl).
    apply simulate_step_Ok in Hstep
      as (game0 & r0 & w & game & maxd' & Hinit & Hplay & Hmax' & ->).
    rewrite Hmax in Hmax'. injection Hmax' as <-.
    apply IH in Hl as ->; [|done..]. simpl.
    rewrite bucket_sum_count_buckets.
    eapply trial_goats_le_cap in Hplay as [_ Hle]; [|done].
    assert (door_cap (mkRules (rules_n_doors (rules (config s)))
              (rules_n_goats (rules (config s)))
              (rules_max_doors (rules (config s)))) = door_cap (rules (config s)))
      as Heq by (by destruct (rules (config s))).
    rewrite Heq in Hle. rewrite decide_True by lia.
    rewrite !bucket_sum_stat_add; [lia|apply goats_key_ne_win|apply goats_key_ne_rerolls].
Qed.
End series_laws.

(* ===================================================================== *)
(** ** The host: [reveal] *)

Lemma count_insert b l i :
  l !! i = Some (negb b) -> count b (<[i := b]> l) = S (count b l).
Proof.
  revert i. induction l as [|x l IH]; intros [|i]; simpl; try done.
  - intros [= ->]. rewrite !count_cons, decide_True by done.
    rewrite decide_False by (by destruct b). done.
  - intros Hl. rewrite !count_cons, IH by done. lia.
Qed.

Section reveal_claims.
Context {R : Type} `{RandomSource R}.

(** C6: when every goat door is the player's choice, or there is no goat,
    [reveal('goat')] returns [True] (reroll required) and leaves the game,
    and the random source, exactly as they were. *)
Theorem reveal_goat_empty_pool g (r : R) :
  (forall d, prizes g !! d = Some false -> choice g = Some d) ->
  reveal "goat" g r = Ok (true, g, r).
Proof.
  intros Hall. unfold reveal, reveal_options. simpl.
  rewrite decide_True; [done|].
  apply length_zero_iff_nil, elem_of_nil_inv. intros d Hd.
  unfold choice_in in Hd. destruct (choice g) as [c|] eqn:Hc.
  - case_bool_decide as Hcin.
    + pose proof (remove_first_subseteq _ _ _ Hd) as Hin.
      apply elem_of_indices, Hall in Hin. injection Hin as ->.
      by eapply remove_first_not_elem, Hd; apply indices_NoDup.
    + pose proof Hd as Hin. apply elem_of_indices, Hall in Hin.
      injection Hin as ->. done.
  - apply elem_of_indices, Hall in Hd. done.
Qed.

(** C8: the door that [reveal] opens is never the player's choice: the
    entry of [visible] at the choice is as before, and the opened door is
    another one. *)
Theorem reveal_never_opens_choice strategy g (r : R) b g' r' c :
  reveal strategy g r = Ok (b, g', r') ->
  choice g = Some c ->
  visible g' !! c = visible g !! c /\
  (b = false -> exists d, d ≠ c /\ visible g' = <[d := true]> (visible g)).
Proof.
  intros Hrev Hc.
  apply reveal_Ok in Hrev as [(-> & -> & _)|(-> & options & d & Hopt & Hd & Hlt & ->)].
  - done.
  - eapply reveal_options_spec in Hd as [Hne _]; [|done].
    assert (d ≠ c) by congruence. simpl.
    split; [by apply list_lookup_insert_ne|]. intros _. by exists d.
Qed.
End reveal_claims.

Section reveal_goat_claims.
Context {R : Type} `{RandomSourceLaws R}.

(** C7 (as the code has it): on a well-formed game with a goat door that
    is not the player's choice, [reveal('goat')] does not ask for a reroll;
    it sets [visible] at exactly one door, a goat door other than the
    choice, and leaves every other entry and every other attribute alone.
    That entry goes from false to true when the door was still closed. *)
Theorem reveal_goat_opens_one_door g (r : R) d0 :
  wf g -> prizes g !! d0 = Some false -> choice g ≠ Some d0 ->
  exists d r',
    reveal "goat" g r = Ok (false, set_visible (<[d := true]> (visible g)) g, r') /\
    prizes g !! d = Some false /\ choice g ≠ Some d /\
    <[d := true]> (visible g) !! d = Some true /\
    (forall j, j ≠ d -> <[d := true]> (visible g) !! j = visible g !! j) /\
    (visible g !! d = Some false ->
     count true (<[d := true]> (visible g)) = S (count true (visible g))).
Proof.
  intros [Hwp Hwv] Hgoat Hne.
  unfold reveal. destruct (reveal_options "goat" g) as [|options|] eqn:Hopt.
  - exfalso. unfold reveal_options in Hopt. simpl in Hopt.
    case_decide as Hlen; [|done]. apply length_zero_iff_nil in Hlen.
    assert (d0 ∈ indices false (prizes g)) as Hin by (by apply elem_of_indices).
    unfold choice_in in Hlen. destruct (choice g) as [c|]; simpl in Hlen.
    + case_bool_decide.
      * apply (remove_first_elem c) in Hin; [|congruence]. rewrite Hlen in Hin.
        by apply elem_of_nil in Hin.
      * rewrite Hlen in Hin. by apply elem_of_nil in Hin.
    + rewrite Hlen in Hin. by apply elem_of_nil in Hin.
  - assert (options ≠ []) as Hnil.
    { unfold reveal_options in Hopt. simpl in Hopt.
      case_decide as Hlen; [done|]. injection Hopt as <-.
      intros Hnil. by rewrite Hnil in Hlen. }
    assert (0 < length options) as Hpos by (destruct options; simpl; [done|lia]).
    unfold rng_integers. rewrite decide_False by lia.
    destruct (draw (length options) r) as [x r'] eqn:Hdraw. simpl.
    pose proof (draw_lt _ r Hpos) as Hx. rewrite Hdraw in Hx. simpl in Hx.
    destruct (lookup_lt_is_Some_2 options x Hx) as [d Hd].
    unfold subscript. rewrite Hd. simpl.
    assert (d ∈ options) as Hin by (by eapply list_elem_of_lookup_2).
    eapply reveal_options_spec in Hin as (Hned & Hprize & _); [|done].
    specialize (Hprize eq_refl).
    assert (d < length (visible g)) as Hlt.
    { rewrite Hwv, <- Hwp. by eapply lookup_lt_Some. }
    unfold array_set. rewrite decide_True by done. simpl.
    exists d, r'. split; [done|]. split; [done|]. split; [done|].
    split; [by apply list_lookup_insert_eq|].
    split; [by intros j Hj; apply list_lookup_insert_ne|].
    intros Hclosed. by apply count_insert.
  - unfold reveal_options in Hopt. simpl in Hopt. by case_decide.
Qed.
End reveal_goat_claims.

Lemma reveal_goat_empty_pool_witness :
  reveal "goat" (layout [true; false; true] [false; false; false] (Some 1)) [0; 0]
  = Ok (true, layout [true; false; true] [false; false; false] (Some 1), [0; 0]).
Proof.
  apply reveal_goat_empty_pool.
  intros [|[|[|d]]]; unfold layout; simpl; rewrite ?lookup_nil; congruence.
Defined.

Lemma reveal_never_opens_choice_witness :
  visible (layout [true; false; false] [false; true; false] (Some 0)) !! 0
  = Some false /\
  (false = false -> exists d, d ≠ 0 /\
     [false; true; false] = <[d := true]> [false; false; false]).
Proof.
  apply (reveal_never_opens_choice "goat"
           (layout [true; false; false] [false; false; false] (Some 0)) [0]
           false (layout [true; false; false] [false; true; false] (Some 0)) []);
    reflexivity.
Defined.

Lemma reveal_goat_opens_one_door_witness :
  exists d r',
    reveal "goat" (layout [true; false; false] [false; false; false] (Some 0)) [1]
    = Ok (false, set_visible (<[d := true]> [false; false; false])
                   (layout [true; false; false] [false; false; false] (Some 0)), r') /\
    [true; false; false] !! d = Some false /\ Some 0 ≠ Some d /\
    <[d := true]> [false; false; false] !! d = Some true /\
    (forall j, j ≠ d -> <[d := true]> [false; false; false] !! j
                        = [false; false; false] !! j) /\
    ([false; false; false] !! d = Some false ->
     count true (<[d := true]> [false; false; false])
     = S (count true [false; false; false])).
Proof.
  apply (reveal_goat_opens_one_door
           (layout [true; false; false] [false; false; false] (Some 0)) [1] 2).
  - split; reflexivity.
  - reflexivity.
  - discriminate.
Defined.

(** C7 as stated fails when the door the host picks is already open.
    Three doors, goats behind 1 and 2, the player on door 0: the first
    [reveal('goat')] opens door 1; a second one may pick door 1 again, and
    then the game is returned as it was, with no entry of [visible]
    changed, although door 2 is a goat door that is not chosen. *)
Lemma reveal_goat_twice_changes_nothing :
  Game_init (Some 3) (Some 2) None 0 [1; 1; 0; 0; 0]
  = Ok (layout [true; false; false] [false; false; false] None, [0; 0; 0]) /\
  choose "random" (layout [true; false; false] [false; false; false] None) [0; 0; 0]
  = Ok (layout [true; false; false] [false; false; false] (Some 0), [0; 0]) /\
  reveal "goat" (layout [true; false; false] [false; false; false] (Some 0)) [0; 0]
  = Ok (false, layout [true; false; false] [false; true; false] (Some 0), [0]) /\
  prizes (layout [true; false; false] [false; true; false] (Some 0)) !! 2 = Some false /\
  choice (layout [true; false; false] [false; true; false] (Some 0)) ≠ Some 2 /\
  reveal "goat" (layout [true; false; false] [false; true; false] (Some 0)) [0]
  = Ok (false, layout [true; false; false] [false; true; false] (Some 0), []).
Proof.
  split; [reflexivity|]. split; [reflexivity|]. split; [reflexivity|].
  split; [reflexivity|]. split; [discriminate|reflexivity].
Qed.

(* ===================================================================== *)
(** ** The player: [choose], and unsupported strategies *)

Section choose_claims.
Context {R : Type} `{RandomSource R}.

(** Under [stay] a revealed prize is taken: the choice becomes the first
    door that is both open and prize-bearing. *)
Lemma choose_stay_takes_revealed_prize g (r : R) :
  any (zip_with andb (visible g) (prizes g)) = true ->
  exists d, choose "stay" g r = Ok (set_choice (Some d) g, r) /\
            visible g !! d = Some true /\ prizes g !! d = Some true.
Proof.
  intros Hany. unfold choose. rewrite Hany. simpl.
  assert (forall l i, any l = true ->
            exists d, index_true_from i l = Ok (i + d) /\ l !! d = Some true) as Hidx.
  { clear. induction l as [|b l IH]; intros i Hl; [done|]. simpl.
    destruct b.
    - exists 0. by rewrite Nat.add_0_r.
    - destruct (IH (S i) Hl) as (d & Hd & Hl'). exists (S d).
      split; [|done]. rewrite Hd. f_equal. lia. }
  destruct (Hidx _ 0 Hany) as (d & Hd & Hl). unfold index_true. rewrite Hd. simpl.
  exists d. split; [done|].
  apply lookup_zip_with_Some in Hl as (v & p & Hvp & Hv & Hp).
  symmetry in Hvp. apply andb_true_iff in Hvp as [-> ->]. done.
Qed.

(** C2, what the code does: under [random] and [update] the player ends
    on a door that is still closed, whatever is revealed; a door that is
    open and prize-bearing is therefore never the final choice. *)
Theorem choose_random_update_picks_closed_door strategy g (r : R) g' r' :
  strategy = "random" \/ strategy = "update" ->
  choose strategy g r = Ok (g', r') ->
  exists d, choice g' = Some d /\ visible g' !! d = Some false.
Proof.
  intros Hs. unfold choose. intros Hc.
  apply bind_Ok in Hc as (g1 & Hg1 & Hc).
  assert (exists c, g1 = set_choice c g) as [c ->].
  { destruct (any _).
    - apply bind_Ok in Hg1 as (d & _ & [= <-]). eauto.
    - injection Hg1 as <-. exists (choice g). by destruct g. }
  destruct Hs as [-> | ->]; simpl in Hc.
  - apply choose_from_frame in Hc as (d & Hd%elem_of_indices & ->). eauto.
  - apply choose_from_frame in Hc as (d & Hd & ->).
    exists d. split; [done|]. simpl. apply elem_of_indices.
    destruct c; [by eapply remove_first_subseteq|done].
Qed.
End choose_claims.

Lemma choose_random_update_picks_closed_door_witness :
  any (zip_with andb
         (visible (layout [true; false; false] [true; false; false] (Some 1)))
         (prizes (layout [true; false; false] [true; false; false] (Some 1)))) = true /\
  exists d, choice (layout [true; false; false] [true; false; false] (Some 1)) = Some d /\
            visible (layout [true; false; false] [true; false; false] (Some 1)) !! d
            = Some false.
Proof.
  split; [reflexivity|].
  apply (choose_random_update_picks_closed_door "update"
           (layout [true; false; false] [true; false; false] (Some 1)) [0]
           (layout [true; false; false] [true; false; false] (Some 1)) []).
  - right. reflexivity.
  - reflexivity.
Defined.

(** The whole game at that input: the host opens the prize door 0, the
    player on door 1 switches among the closed doors and loses. *)
Example play_passes_up_revealed_prize :
  play 1 "update" "random" (layout [true; false; false] [false; false; false] None)
       [1; 0; 0]
  = Ok (false, layout [true; false; false] [true; false; false] (Some 1), []).
Proof. reflexivity. Qed.

Section unsupported.
Context {R : Type} `{RandomSource R}.

(** C3, what the code does: a host strategy other than ['goat'] and
    ['random'] leaves [options] unbound, so [reveal] raises
    [UnboundLocalError] before any mutation; [play] and [simulate] do not
    catch it, and no call that runs a trial returns. *)
Theorem unsupported_host_raises ho :
  ho ≠ "goat" -> ho ≠ "random" ->
  (forall g (r : R), reveal ho g r = Raise UnboundLocalError) /\
  (forall depth pl g (r : R), is_ok (play depth pl ho g r) = false) /\
  (forall depth n s (r : R),
      host (strategies (config s)) = ho -> 0 < trials n s ->
      is_ok (simulate depth n s r) = false).
Proof.
  intros Hg Hr.
  assert (forall g (r : R), reveal ho g r = Raise UnboundLocalError) as Hrev.
  { intros g r. unfold reveal, reveal_options.
    apply String.eqb_neq in Hg, Hr. by rewrite Hg, Hr. }
  assert (forall depth pl g (r : R), is_ok (play depth pl ho g r) = false) as Hplay.
  { intros [|depth] pl g r; simpl; [done|].
    destruct (choose "random" g r) as [[g1 r1]|e]; simpl; [|done].
    by rewrite Hrev. }
  split; [done|]. split; [done|].
  intros depth n s r Hho Hn. unfold simulate.
  destruct (trials n s) as [|k]; [lia|]. simpl. unfold simulate_step.
  destruct (Game_init _ _ _ _ r) as [[g0 r0]|e]; simpl; [|done].
  rewrite Hho. specialize (Hplay depth (player (strategies (config s))) g0 r0).
  by destruct (play depth _ ho g0 r0) as [[[w g1] r1]|e'].
Qed.
End unsupported.

(* ===================================================================== *)
(** ** Whole trials and whole series *)

Lemma unsupported_host_raises_witness :
  (forall g (r : list nat), reveal "open" g r = Raise UnboundLocalError) /\
  (forall depth pl g (r : list nat), is_ok (play depth pl "open" g r) = false) /\
  (forall depth n s (r : list nat),
      host (strategies (config s)) = "open" -> 0 < trials n s ->
      is_ok (simulate depth n s r) = false).
Proof. apply (unsupported_host_raises "open"); discriminate. Defined.

(** The same at one input: the rules of [run.py], one game, host
    strategy ['open']. *)
Example simulate_unsupported_host :
  simulate 10 None
    (GameSeries_init (mkConfig 1 (rules run_config) (mkStrategies "update" "open")))
    [2; 1; 1; 0; 0; 0]
  = Raise UnboundLocalError.
Proof. reflexivity. Qed.

Section zero_goats.
Context {R : Type} `{RandomSource R}.

(** A request of [0] goats is falsy, so it is served like [None]: the goat
    count is drawn by [rng.integers(n_doors + 1)]. *)
Lemma initialize_state_zero_goats nd g (r : R) g' r' :
  initialize_state nd (Some 0) g r = Ok (g', r') ->
  exists g'', initialize_state nd None g r = Ok (g'', r') /\
              n_doors g'' = n_doors g' /\ n_goats g'' = n_goats g' /\
              prizes g'' = prizes g'.
Proof.
  unfold initialize_state. simpl. intros Hi.
  apply bind_Ok in Hi as ([doors r1] & -> & Hi). simpl.
  apply bind_Ok in Hi as ([goats r2] & -> & Hi). simpl.
  apply bind_Ok in Hi as ([goatidxs r3] & -> & Hi). simpl.
  apply bind_Ok in Hi as (p & -> & [= <- <-]). simpl. eauto.
Qed.
End zero_goats.

(** C1, what the code does at [n_goats=0], [host='goat']: on three doors
    with the goat count 0 requested, the game is dealt two goats, and
    [play] returns at recursion depth one, with no reroll. *)
Theorem fixed_zero_goats_trial_completes :
  Game_init (Some 3) (Some 0) None 0 [2; 1; 1; 0; 0; 0]
  = Ok (mkGame 3 3 0 0 None false (Some 3, Some 0) 3 2
               [true; false; false] [false; false; false], [0; 0; 0]) /\
  play 1 "update" "goat"
       (mkGame 3 3 0 0 None false (Some 3, Some 0) 3 2
               [true; false; false] [false; false; false]) [0; 0; 0]
  = Ok (false, mkGame 3 3 0 0 (Some 2) false (Some 3, Some 0) 3 2
                      [true; false; false] [false; true; false], []) /\
  play_restarts 1 "goat"
       (mkGame 3 3 0 0 None false (Some 3, Some 0) 3 2
               [true; false; false] [false; false; false]) [0; 0; 0] = 0.
Proof. repeat split; reflexivity. Qed.

Section prize_counts.
Context {R : Type} `{RandomSourceLaws R}.

(** C9: a game that [play] has resolved holds exactly [n_goats] goats,
    and prizes behind the other [n_doors - n_goats] doors; [choose] and
    [reveal] never write to [prizes]. *)
Theorem resolved_trial_prize_counts nd ng maxd verb depth pl ho (r : R) g0 r0 w g r1 :
  Game_init nd ng maxd verb r = Ok (g0, r0) ->
  play depth pl ho g0 r0 = Ok (w, g, r1) ->
  count false (prizes g) = n_goats g /\
  count true (prizes g) = n_doors g - n_goats g /\
  (forall s g1 (r2 : R) g2 r3, choose s g1 r2 = Ok (g2, r3) -> prizes g2 = prizes g1) /\
  (forall s g1 (r2 : R) b g2 r3,
      reveal s g1 r2 = Ok (b, g2, r3) -> prizes g2 = prizes g1).
Proof.
  intros Hinit Hplay.
  eapply trial_goats_le_cap in Hplay as [([Hwp _] & Hcnt & Hle) _]; [|done].
  pose proof (count_true_false (prizes g)) as Hsum.
  split; [done|]. split; [lia|]. split.
  - intros s g1 r2 g2 r3 [c ->]%choose_frame. done.
  - intros s g1 r2 b g2 r3 Hrev.
    by apply reveal_Ok in Hrev as [(_ & -> & _)|(_ & ? & ? & _ & _ & _ & ->)].
Qed.
End prize_counts.

Lemma resolved_trial_prize_counts_witness :
  count false [false; true; true] = 1 /\
  count true [false; true; true] = 3 - 1 /\
  (forall s g1 (r2 : list nat) g2 r3,
      choose s g1 r2 = Ok (g2, r3) -> prizes g2 = prizes g1) /\
  (forall s g1 (r2 : list nat) b g2 r3,
      reveal s g1 r2 = Ok (b, g2, r3) -> prizes g2 = prizes g1).
Proof.
  apply (resolved_trial_prize_counts (Some 3) (Some 1) None 0 2 "update" "goat"
           [0; 0; 0; 1; 0; 0]
           (mkGame 3 3 0 0 None false (Some 3, Some 1) 3 1
                   [false; true; true] [false; false; false]) [0; 0; 1; 0; 0]
           true
           (mkGame 3 3 0 1 (Some 2) true (Some 3, Some 1) 3 1
                   [false; true; true] [true; false; false]) []);
    reflexivity.
Defined.

(** C4 as stated fails: in a series of two games where the first restarts
    once and the second never, the second game's counter reads 0 although
    one restart has happened in the series by then. *)
Lemma reroll_counter_not_series_wide :
  exists s' g,
    simulate 2 None (GameSeries_init one_goat_config) one_goat_tape = Ok (s', []) /\
    loop_restarts 2 2 (GameSeries_init one_goat_config) one_goat_tape = [1; 0] /\
    history s' !! 1 = Some g /\
    rerolls g = 0 /\
    stat "rerolls" (stats s') = 1 /\
    rerolls g ≠ sum_list (take 2 [1; 0]).
Proof.
  eexists _, _.
  split; [vm_compute; reflexivity|].
  split; [vm_compute; reflexivity|].
  split; [vm_compute; reflexivity|].
  split; [vm_compute; reflexivity|].
  split; [vm_compute; reflexivity|].
  vm_compute. discriminate.
Qed.

(** C5 as stated fails in two ways.  With five doors and [max_doors=3] a
    game of five goats falls in no bucket, so the totals of one completed
    trial sum to 0.  And the dictionary is kept between calls: after a
    second [simulate(1)] on the same series the totals sum to 2. *)
Lemma bucket_totals_miss_trials :
  (exists s' r',
      simulate 1 (Some 1) (GameSeries_init five_doors_config) [0; 0; 0; 0; 0; 0; 0]
      = Ok (s', r') /\
      rules_max_doors (rules (config s')) = Some 3 /\
      length (history s') = 1 /\
      bucket_sum 3 (stats s') = 0) /\
  (exists s1 r1 s2 r2,
      simulate 1 (Some 1) (GameSeries_init single_game_config) two_games_tape
      = Ok (s1, r1) /\
      simulate 1 (Some 1) s1 r1 = Ok (s2, r2) /\
      trials (Some 1) s1 = 1 /\
      rules_max_doors (rules (config s2)) = Some 3 /\
      bucket_sum 3 (stats s2) = 2).
Proof.
  split.
  - eexists _, _.
    split; [vm_compute; reflexivity|].
    split; [vm_compute; reflexivity|].
    split; vm_compute; reflexivity.
  - eexists _, _, _, _.
    split; [vm_compute; reflexivity|].
    split; [vm_compute; reflexivity|].
    split; [vm_compute; reflexivity|].
    split; vm_compute; reflexivity.
Qed.

(* ===================================================================== *)
(** ** Further properties: initialisation *)

Lemma array_set_all_Ok a idxs v :
  Forall (fun i => i < length a) idxs ->
  exists a', array_set_all a idxs v = Ok a'.
Proof.
  revert a. induction idxs as [|i idxs IH]; intros a Hall; simpl; [eauto|].
  apply Forall_cons in Hall as [Hi Hall].
  unfold array_set. rewrite decide_True by done. simpl.
  apply IH. by rewrite length_insert.
Qed.

Section initialize_extra.
Context {R : Type} `{RandomSource R}.

(** X1: (re)initialisation closes every door, forgets the choice and the
    result, records the request, and keeps the settings and the reroll
    counter. *)
Theorem initialize_state_resets nd ng g (r : R) g' r' :
  initialize_state nd ng g r = Ok (g', r') ->
  visible g' = replicate (n_doors g') false /\
  length (prizes g') = n_doors g' /\
  choice g' = None /\ win g' = false /\ args g' = (nd, ng) /\
  rerolls g' = rerolls g /\ min_doors g' = min_doors g /\
  max_doors g' = max_doors g /\ verbose g' = verbose g.
Proof.
  unfold initialize_state. intros Hi.
  apply bind_Ok in Hi as ([doors r1] & _ & Hi).
  apply bind_Ok in Hi as ([goats r2] & _ & Hi).
  apply bind_Ok in Hi as ([goatidxs r3] & _ & Hi).
  apply bind_Ok in Hi as (p & Hp%array_set_all_length & [= <- <-]). simpl.
  by rewrite length_replicate in Hp.
Qed.

(** The request that [initialize_state] serves. *)
Lemma initialize_state_request nd ng g (r : R) g' r' :
  initialize_state nd ng g r = Ok (g', r') ->
  (forall d, truthy nd = Some d -> n_doors g' = d) /\
  (forall k, truthy ng = Some k -> n_goats g' = k).
Proof.
  unfold initialize_state. intros Hi.
  apply bind_Ok in Hi as ([doors r1] & Hd & Hi).
  apply bind_Ok in Hi as ([goats r2] & Hg & Hi).
  apply bind_Ok in Hi as ([goatidxs r3] & _ & Hi).
  apply bind_Ok in Hi as (p & _ & [= <- <-]). simpl. split.
  - intros d Hnd. rewrite Hnd in Hd. by injection Hd as <- _.
  - intros k Hng. rewrite Hng in Hg. by injection Hg as <- _.
Qed.

(** X2: a positive requested door count, and a positive requested goat
    count, are used as they are. *)
Theorem initialize_state_uses_request nd ng g (r : R) g' r' :
  initialize_state nd ng g r = Ok (g', r') ->
  (forall d, truthy nd = Some d -> n_doors g' = d) /\
  (forall k, truthy ng = Some k -> n_goats g' = k).
Proof. apply initialize_state_request. Qed.

(** X3: more goats requested than doors requested is refused with
    [ValueError] (from [rng.choice]), and so is a randomised door count
    when [max_doors] is below [min_doors] (from [rng.integers]). *)
Theorem initialize_state_bad_request nd ng g (r : R) :
  (exists d k, truthy nd = Some d /\ truthy ng = Some k /\ d < k) \/
  (truthy nd = None /\ max_doors g < min_doors g) ->
  initialize_state nd ng g r = Raise ValueError.
Proof.
  intros [(d & k & Hnd & Hng & Hlt)|[Hnd Hlt]]; unfold initialize_state.
  - rewrite Hnd, Hng. simpl. unfold rng_choice. by rewrite decide_False by lia.
  - rewrite Hnd. replace (max_doors g + 1 - min_doors g) with 0 by lia. done.
Qed.
End initialize_extra.

Section initialize_laws.
Context {R : Type} `{RandomSourceLaws R}.

(** X4: with a source that keeps numpy's contract, a randomised door
    count lies in [[min_doors, max_doors]] and a randomised goat count in
    [[0, n_doors]]. *)
Theorem initialize_state_ranges nd ng g (r : R) g' r' :
  initialize_state nd ng g r = Ok (g', r') ->
  (truthy nd = None -> min_doors g <= n_doors g' <= max_doors g) /\
  n_goats g' <= n_doors g'.
Proof.
  intros Hi.
  pose proof (initialize_state_dealt _ _ _ _ _ _ Hi) as [(_ & _ & Hle) Hcap].
  split; [|done]. intros Hnd. rewrite Hnd in Hcap. split; [|done].
  unfold initialize_state in Hi. rewrite Hnd in Hi.
  apply bind_Ok in Hi as ([doors r1] & Hd & Hi).
  apply bind_Ok in Hd as ([x r0] & _ & [= <- _]).
  apply bind_Ok in Hi as ([goats r2] & _ & Hi).
  apply bind_Ok in Hi as ([goatidxs r3] & _ & Hi).
  apply bind_Ok in Hi as (p & _ & [= <- <-]). simpl. lia.
Qed.

(** X5: with such a source, a request that asks for no more goats than
    doors is always served: fixed doors with at most that many goats (or
    a random number of them), or random doors when
    [min_doors <= max_doors] with at most [min_doors] goats requested. *)
Theorem initialize_state_succeeds nd ng g (r : R) :
  (forall d, truthy nd = Some d -> forall k, truthy ng = Some k -> k <= d) ->
  (truthy nd = None ->
   min_doors g <= max_doors g /\ forall k, truthy ng = Some k -> k <= min_doors g) ->
  exists g' r', initialize_state nd ng g r = Ok (g', r').
Proof.
  intros Hfix Hrand. unfold initialize_state.
  assert (exists doors r1,
    match truthy nd with
    | Some d => Ok (d, r)
    | None => '(x, r') ← rng_integers (max_doors g + 1 - min_doors g) r;
              Ok (x + min_doors g, r')
    end = Ok (doors, r1) /\
    (forall k, truthy ng = Some k -> k <= doors)) as (doors & r1 & -> & Hk).
  { destruct (truthy nd) as [d|] eqn:Hnd.
    - exists d, r. split; [done|]. by apply Hfix.
    - destruct (Hrand eq_refl) as [Hle Hk].
      unfold rng_integers. rewrite decide_False by lia. simpl.
      destruct (draw _ r) as [x r0]. simpl. exists (x + min_doors g), r0.
      split; [done|]. intros k Hng. specialize (Hk k Hng). lia. }
  simpl.
  assert (exists goats r2,
    match truthy ng with
    | Some k => Ok (k, r1)
    | None => rng_integers (doors + 1) r1
    end = Ok (goats, r2) /\ goats <= doors) as (goats & r2 & -> & Hle).
  { destruct (truthy ng) as [k|] eqn:Hng.
    - exists k, r1. split; [done|]. by apply Hk.
    - unfold rng_integers. rewrite decide_False by lia.
      pose proof (draw_lt (doors + 1) r1 ltac:(lia)) as Hlt.
      destruct (draw (doors + 1) r1) as [x r2]. simpl in Hlt.
      exists x, r2. split; [done|lia]. }
  simpl. unfold rng_choice. rewrite decide_True by done. simpl.
  pose proof (sample_lt doors goats r2 Hle) as Hall.
  destruct (sample doors goats r2) as [idxs r3]. simpl in *.
  destruct (array_set_all_Ok (replicate doors true) idxs false) as [p ->].
  { by rewrite length_replicate. }
  simpl. eauto.
Qed.
End initialize_laws.

(* ===================================================================== *)
(** ** Further properties: [choose] and [reveal] *)

Lemma any_true_index l :
  any l = true -> forall i, exists d, index_true_from i l = Ok (i + d) /\ l !! d = Some true.
Proof.
  induction l as [|b l IH]; intros Hl i; [done|]. simpl.
  destruct b.
  - exists 0. by rewrite Nat.add_0_r.
  - destruct (IH Hl (S i)) as (d & Hd & Hl'). exists (S d).
    split; [|done]. rewrite Hd. f_equal. lia.
Qed.

Lemma set_choice_id g : set_choice (choice g) g = g.
Proof. by destruct g. Qed.

Section choose_extra.
Context {R : Type} `{RandomSource R}.

(** X6: on a well-formed game, [choose] with ['stay'], or with any
    strategy other than ['random'] and ['update'], never raises and never
    draws from the generator; when no open door shows a prize it leaves
    the game exactly as it was. *)
Theorem choose_stay_is_passive strategy g (r : R) :
  wf g ->
  strategy ≠ "random" -> strategy ≠ "update" ->
  exists g', choose strategy g r = Ok (g', r) /\
             prizes g' = prizes g /\ visible g' = visible g /\
             (any (zip_with andb (visible g) (prizes g)) = false -> g' = g).
Proof.
  intros _ Hr Hu. apply String.eqb_neq in Hr, Hu. unfold choose.
  destruct (any _) eqn:Hany.
  - destruct (any_true_index _ Hany 0) as (d & Hd & _).
    unfold index_true. rewrite Hd. simpl. exists (set_choice (Some d) g).
    split; [|done]. destruct (String.eqb strategy "stay"); [done|].
    by rewrite Hr, Hu.
  - simpl. exists g. split; [|done].
    destruct (String.eqb strategy "stay"); [done|]. by rewrite Hr, Hu.
Qed.

(** Without a revealed prize, ['update'] moves to another closed door. *)
Lemma choose_update_other_door g (r : R) g' r' c :
  any (zip_with andb (visible g) (prizes g)) = false ->
  choice g = Some c ->
  choose "update" g r = Ok (g', r') ->
  exists d, g' = set_choice (Some d) g /\ d ≠ c /\ visible g !! d = Some false.
Proof.
  intros Hany Hc. unfold choose. rewrite Hany. simpl. rewrite Hc. intros Hch.
  apply choose_from_frame in Hch as (d & Hd & ->). exists d. split; [done|].
  split.
  - intros ->. by eapply remove_first_not_elem, Hd; apply indices_NoDup.
  - by eapply elem_of_indices, remove_first_subseteq.
Qed.



(** X9: no call of [choose] or [reveal] closes a door or changes the
    number of doors: the array [visible] keeps its length and every entry
    that was true stays true. *)
Theorem visible_never_closes strategy g (r : R) :
  (forall g' r', choose strategy g r = Ok (g', r') -> visible g' = visible g) /\
  (forall b g' r', reveal strategy g r = Ok (b, g', r') ->
     length (visible g') = length (visible g) /\
     forall j, visible g !! j = Some true -> visible g' !! j = Some true).
Proof.
  split.
  - by intros g' r' [c ->]%choose_frame.
  - intros b g' r' Hrev.
    apply reveal_Ok in Hrev as [(_ & -> & _)|(_ & options & d & _ & _ & Hlt & ->)];
      [done|]. simpl. split; [by rewrite length_insert|].
    intros j Hj. destruct (decide (j = d)) as [->|Hne].
    + by apply list_lookup_insert_eq.
    + by rewrite list_lookup_insert_ne.
Qed.

(** X10: the host strategy ['random'] never asks for a reroll, and the
    door it opens is a door of the game other than the choice; with one
    door only and that door chosen (or with no door) it raises
    [ValueError]. *)
Theorem reveal_random_never_rerolls g (r : R) :
  (forall b g' r', reveal "random" g r = Ok (b, g', r') ->
     b = false /\ exists d, d < n_doors g /\ choice g ≠ Some d /\
                            g' = set_visible (<[d := true]> (visible g)) g) /\
  ((forall d, d < n_doors g -> choice g = Some d) ->
   reveal "random" g r = Raise ValueError).
Proof.
  split.
  - intros b g' r' Hrev.
    apply reveal_Ok in Hrev as [(_ & _ & _ & Hopt)|(-> & options & d & Hopt & Hd & _ & ->)];
      [done|].
    split; [done|]. exists d.
    eapply reveal_options_spec in Hd as (Hne & _ & Hlt); [|done].
    split; [by apply Hlt|done].
  - intros Hall. unfold reveal, reveal_options. simpl.
    assert (filter (fun idx => Some idx ≠ choice g) (seq 0 (n_doors g)) = []) as ->;
      [|done].
    apply elem_of_nil_inv. intros d [Hne Hd]%list_elem_of_filter.
    apply elem_of_seq in Hd. apply Hne. symmetry. apply Hall. lia.
Qed.

(** A reroll is asked for only when no goat door is left to open. *)
Lemma reveal_goat_reroll_inv g (r : R) g' r' :
  reveal "goat" g r = Ok (true, g', r') ->
  (forall d, prizes g !! d = Some false -> choice g = Some d) /\
  count false (prizes g) <= 1.
Proof.
  intros Hrev.
  apply reveal_Ok in Hrev as [(_ & _ & _ & Hopt)|([=] & _)].
  unfold reveal_options in Hopt. simpl in Hopt.
  case_decide as Hlen; [|done]. apply length_zero_iff_nil in Hlen.
  assert (forall d, prizes g !! d = Some false -> choice g = Some d) as Hall.
  { intros d Hd%elem_of_indices. unfold choice_in in Hlen.
    destruct (choice g) as [c|]; simpl in Hlen.
    - case_bool_decide.
      + destruct (decide (d = c)) as [->|Hne]; [done|].
        apply (remove_first_elem c) in Hd; [|done]. rewrite Hlen in Hd.
        by apply elem_of_nil in Hd.
      + rewrite Hlen in Hd. by apply elem_of_nil in Hd.
    - rewrite Hlen in Hd. by apply elem_of_nil in Hd. }
  split; [done|].
  rewrite <- (indices_from_length false 0). fold (indices false (prizes g)).
  pose proof (indices_NoDup false (prizes g)) as Hnd.
  destruct (indices false (prizes g)) as [|a [|b l]] eqn:Hidx; simpl; [lia..|].
  exfalso.
  assert (choice g = Some a) as Ha.
  { apply Hall, elem_of_indices. rewrite Hidx. set_solver. }
  assert (choice g = Some b) as Hb.
  { apply Hall, elem_of_indices. rewrite Hidx. set_solver. }
  rewrite Ha in Hb. injection Hb as ->.
  apply NoDup_cons in Hnd as [Hnin _]. set_solver.
Qed.

(** X11: when [reveal('goat')] asks for a reroll, there is no goat door
    other than the player's choice; in particular it never does so on a
    game with two goats or more. *)
Theorem reveal_goat_reroll_only_without_goat g (r : R) g' r' :
  reveal "goat" g r = Ok (true, g', r') ->
  (forall d, prizes g !! d = Some false -> choice g = Some d) /\
  count false (prizes g) <= 1.
Proof. apply reveal_goat_reroll_inv. Qed.
End choose_extra.

(* ===================================================================== *)
(** ** Further properties: [play] *)

Lemma any_false_lookup l : any l = false <-> forall i, l !! i ≠ Some true.
Proof.
  induction l as [|b l IH]; simpl.
  - split; [by intros _ i|done].
  - destruct b; simpl.
    + split; [done|]. intros Hall. by destruct (Hall 0).
    + unfold any in IH. rewrite IH. split.
      * intros Hall [|i]; [done|apply Hall].
      * intros Hall i. apply (Hall (S i)).
Qed.

(** With one open door, and a goat behind it, no open door shows a prize. *)
Lemma any_one_goat_open n d p :
  p !! d = Some false ->
  any (zip_with andb (<[d := true]> (replicate n false)) p) = false.
Proof.
  intros Hd. apply any_false_lookup. intros i Hi.
  apply lookup_zip_with_Some in Hi as (v & q & Hvq & Hv & Hq).
  symmetry in Hvq. apply andb_true_iff in Hvq as [-> ->].
  destruct (decide (i = d)) as [->|Hne]; [congruence|].
  rewrite list_lookup_insert_ne in Hv by done.
  by apply lookup_replicate in Hv as [? _].
Qed.

Lemma any_all_closed n p : any (zip_with andb (replicate n false) p) = false.
Proof.
  apply any_false_lookup. intros i Hi.
  apply lookup_zip_with_Some in Hi as (v & q & Hvq & Hv & Hq).
  symmetry in Hvq. apply andb_true_iff in Hvq as [-> ->].
  by apply lookup_replicate in Hv as [? _].
Qed.

Lemma count_one_open n d :
  d < n -> count true (<[d := true]> (replicate n false)) = 1.
Proof.
  intros Hlt. rewrite (count_insert true).
  - by rewrite (count_replicate_ne false).
  - by apply lookup_replicate_2.
Qed.

Section play_extra.
Context {R : Type} `{RandomSource R}.

(** What [choose] does when no open door shows a prize. *)
Lemma choose_no_prize strategy g (r : R) g' r' :
  any (zip_with andb (visible g) (prizes g)) = false ->
  choose strategy g r = Ok (g', r') ->
  (g' = g /\ r' = r) \/
  (exists e, g' = set_choice (Some e) g /\ visible g !! e = Some false).
Proof.
  intros Hany. unfold choose. rewrite Hany. simpl.
  destruct (String.eqb strategy "stay"); [intros [= <- <-]; by left|].
  destruct (String.eqb strategy "random").
  { intros (e & He%elem_of_indices & ->)%choose_from_frame. right. eauto. }
  destruct (String.eqb strategy "update"); [|intros [= <- <-]; by left].
  intros (e & He & ->)%choose_from_frame. right. exists e. split; [done|].
  apply elem_of_indices. destruct (choice g); [by eapply remove_first_subseteq|done].
Qed.

(** One pass of [play] that returns. *)
Lemma play_S_Ok depth pl ho g (r : R) w g' r' :
  play (S depth) pl ho g r = Ok (w, g', r') ->
  exists g1 r1 b g2 r2,
    choose "random" g r = Ok (g1, r1) /\ reveal ho g1 r1 = Ok (b, g2, r2) /\
    if b
    then exists g4 r4,
           initialize_state (args g2).1 (args g2).2
             (set_rerolls (rerolls g2 + 1) g2) r2 = Ok (g4, r4) /\
           play depth pl ho g4 r4 = Ok (w, g', r')
    else exists g3 c,
           choose pl g2 r2 = Ok (g3, r') /\ choice g3 = Some c /\
           prizes g3 !! c = Some w /\ g' = set_win w g3.
Proof.
  simpl. intros Hp.
  apply bind_Ok in Hp as ([g1 r1] & Hch & Hp).
  apply bind_Ok in Hp as ([[b g2] r2] & Hrev & Hp).
  exists g1, r1, b, g2, r2. split; [done|]. split; [done|].
  destruct b.
  - apply bind_Ok in Hp as ([g4 r4] & Hinit & Hp). by exists g4, r4.
  - apply bind_Ok in Hp as ([g3 r3] & Hch2 & Hp).
    apply bind_Ok in Hp as (w' & Hw & [= <- <- <-]).
    destruct (choice g3) as [c|] eqn:Hc; [|done].
    apply subscript_Ok in Hw. by exists g3, c.
Qed.

(** X12: the value [play] returns is the attribute [win] of the game, and
    it is the prize entry of the final choice, which is a door of the
    game. *)
Theorem play_returns_prize_of_choice depth pl ho g (r : R) w g' r' :
  play depth pl ho g r = Ok (w, g', r') ->
  win g' = w /\ exists c, choice g' = Some c /\ prizes g' !! c = Some w.
Proof.
  revert g r. induction depth as [|depth IH]; intros g r; [done|].
  intros (g1 & r1 & b & g2 & r2 & _ & _ & Hb)%play_S_Ok. destruct b.
  - destruct Hb as (g4 & r4 & _ & Hp). by eapply IH.
  - destruct Hb as (g3 & c & _ & Hc & Hw & ->). simpl. eauto.
Qed.

(** X13: with the host strategy ['random'] the game is never restarted:
    [play] does not recurse, so its outcome is the same at every
    recursion limit, and the reroll counter is untouched. *)
Theorem play_host_random_never_restarts depth pl g (r : R) :
  play (S depth) pl "random" g r = play 1 pl "random" g r /\
  forall w g' r', play (S depth) pl "random" g r = Ok (w, g', r') ->
                  rerolls g' = rerolls g.
Proof.
  assert (play (S depth) pl "random" g r = play 1 pl "random" g r) as Heq.
  { simpl. destruct (choose "random" g r) as [[g1 r1]|e]; simpl; [|done].
    destruct (reveal "random" g1 r1) as [[[b g2] r2]|e] eqn:Hrev; simpl; [|done].
    destruct b; [|done].
    by apply reveal_Ok in Hrev as [(_ & _ & _ & Hopt)|([=] & _)]. }
  split; [done|]. intros w g' r' Hp. rewrite Heq in Hp.
  apply play_rerolls in Hp as ->. simpl.
  destruct (choose "random" g r) as [[g1 r1]|e]; [|lia].
  destruct (reveal "random" g1 r1) as [[[b g2] r2]|e] eqn:Hrev; [|lia].
  destruct b; [|lia].
  by apply reveal_Ok in Hrev as [(_ & _ & _ & Hopt)|([=] & _)].
Qed.

(** X14: a game that [play] resolves, started with all doors closed, has
    exactly one open door; under the host strategy ['goat'] that door
    hides a goat and is not the player's final choice, whatever the
    player strategy. *)
Theorem play_opens_one_door depth pl ho g (r : R) w g' r' :
  visible g = replicate (n_doors g) false ->
  play depth pl ho g r = Ok (w, g', r') ->
  exists d, d < n_doors g' /\
            visible g' = <[d := true]> (replicate (n_doors g') false) /\
            count true (visible g') = 1 /\
            (ho = "goat" -> prizes g' !! d = Some false /\ choice g' ≠ Some d).
Proof.
  revert g r. induction depth as [|depth IH]; intros g r Hfresh; [done|].
  intros (g1 & r1 & b & g2 & r2 & Hch & Hrev & Hb)%play_S_Ok. destruct b.
  - destruct Hb as (g4 & r4 & Hinit & Hp).
    apply initialize_state_frame in Hinit as (Hv & _). by eapply IH.
  - destruct Hb as (g3 & c3 & Hch2 & Hc3 & Hw & ->).
    apply choose_frame in Hch as [c1 ->].
    apply reveal_Ok in Hrev as [([=] & _)|(_ & options & d & Hopt & Hd & Hlt & ->)].
    simpl in Hlt. rewrite Hfresh, length_replicate in Hlt.
    pose proof Hch2 as [c ->]%choose_frame. simpl in *.
    exists d. split; [done|]. rewrite Hfresh. split; [done|].
    split; [by apply count_one_open|]. intros ->.
    eapply reveal_options_spec in Hd as (Hne & Hprize & _); [|done].
    specialize (Hprize eq_refl). simpl in Hne, Hprize. split; [done|].
    apply choose_no_prize in Hch2; [|simpl; rewrite Hfresh; by apply any_one_goat_open].
    destruct Hch2 as [[Heq _]|(e & Heq & He)].
    + apply (f_equal choice) in Heq. simpl in Heq. congruence.
    + apply (f_equal choice) in Heq. simpl in Heq, He. rewrite Hfresh in He.
      intros Hcd. rewrite Hcd in Heq. injection Heq as <-.
      rewrite list_lookup_insert_eq in He; [done|by rewrite length_replicate].
Qed.
End play_extra.

Lemma indices_length want l : length (indices want l) = count want l.
Proof. apply indices_from_length. Qed.

(** In a three-door layout with two goats, the door that is neither the
    first pick nor the opened goat door holds the opposite of the first
    pick. *)
Lemma three_doors_switch (p : list bool) c d e :
  length p = 3 -> count false p = 2 ->
  c < 3 -> p !! d = Some false -> d ≠ c -> e < 3 -> e ≠ d -> e ≠ c ->
  p !! e = negb <$> p !! c.
Proof.
  intros Hlen Hcnt Hc Hd Hdc He Hed Hec.
  destruct p as [|x [|y [|z [|]]]]; simplify_eq/=.
  destruct x, y, z; vm_compute in Hcnt; simplify_eq;
    destruct c as [|[|[|c]]]; try lia;
    destruct d as [|[|[|d]]]; simplify_eq/=;
    destruct e as [|[|[|e]]]; simplify_eq/=; try lia; done.
Qed.

Section total.
Context {R : Type} `{RandomSourceLaws R}.

Lemma choose_from_total options g (r : R) :
  options ≠ [] ->
  exists d r', choose_from options g r = Ok (set_choice (Some d) g, r') /\ d ∈ options.
Proof.
  intros Hne. unfold choose_from.
  assert (0 < length options) as Hpos by (destruct options; simpl; [done|lia]).
  unfold rng_integers. rewrite decide_False by lia.
  pose proof (draw_lt _ r Hpos) as Hx.
  destruct (draw (length options) r) as [x r']. simpl in *.
  destruct (lookup_lt_is_Some_2 options x Hx) as [d Hd].
  unfold subscript. rewrite Hd. simpl. exists d, r'.
  split; [done|]. by eapply list_elem_of_lookup_2.
Qed.

(** [reveal('goat')] succeeds when some goat door is not the choice. *)
Lemma reveal_goat_total g (r : R) d0 :
  wf g -> prizes g !! d0 = Some false -> choice g ≠ Some d0 ->
  exists d r',
    reveal "goat" g r = Ok (false, set_visible (<[d := true]> (visible g)) g, r') /\
    prizes g !! d = Some false /\ choice g ≠ Some d.
Proof.
  intros [Hwp Hwv] Hgoat Hne.
  destruct (reveal "goat" g r) as [[[b g'] r']|e] eqn:Hrev.
  - destruct b.
    + apply reveal_goat_reroll_inv in Hrev as [Hall _].
      by apply Hall in Hgoat.
    + apply reveal_Ok in Hrev as [([=] & _)|(_ & options & d & Hopt & Hd & _ & ->)].
      eapply reveal_options_spec in Hd as (Hned & Hprize & _); [|done].
      exists d, r'. split; [done|]. split; [by apply Hprize|done].
  - exfalso. unfold reveal in Hrev.
    destruct (reveal_options "goat" g) as [|options|] eqn:Hopt; [done| |].
    + assert (options ≠ []) as Hnil.
      { unfold reveal_options in Hopt. simpl in Hopt.
        case_decide as Hlen; [done|]. injection Hopt as <-.
        intros Hnil. by rewrite Hnil in Hlen. }
      assert (0 < length options) as Hpos by (destruct options; simpl; [done|lia]).
      unfold rng_integers in Hrev. rewrite decide_False in Hrev by lia.
      pose proof (draw_lt _ r Hpos) as Hx.
      destruct (draw (length options) r) as [x r']. simpl in *.
      destruct (lookup_lt_is_Some_2 options x Hx) as [d Hd].
      unfold subscript in Hrev. rewrite Hd in Hrev. simpl in Hrev.
      apply list_elem_of_lookup_2 in Hd.
      eapply reveal_options_spec in Hd as (_ & Hprize & _); [|done].
      specialize (Hprize eq_refl). apply lookup_lt_Some in Hprize.
      unfold array_set in Hrev. rewrite decide_True in Hrev by lia. done.
    + unfold reveal_options in Hopt. simpl in Hopt. by case_decide.
Qed.

(** X15: on a dealt game with all doors closed and at least two goats,
    [play] under the host strategy ['goat'] returns a result in its first
    pass, with no reroll, for every player strategy; ['update'] needs a
    third door to switch to. *)
Theorem play_two_goats_returns depth pl g (r : R) :
  dealt g -> visible g = replicate (n_doors g) false ->
  2 <= n_goats g -> (pl = "update" -> 3 <= n_doors g) ->
  exists w g' r', play (S depth) pl "goat" g r = Ok (w, g', r') /\
                  rerolls g' = rerolls g.
Proof.
  intros ([Hwp Hwv] & Hcnt & Hle) Hfresh Hgoats Hupd.
  (* first pick *)
  assert (exists c r1, choose "random" g r = Ok (set_choice (Some c) g, r1) /\
                       c < n_doors g) as (c & r1 & Hch & Hc).
  { unfold choose. rewrite Hfresh, any_all_closed. simpl.
    destruct (choose_from_total (indices false (replicate (n_doors g) false)) g r)
      as (c & r1 & Hch & Hin).
    { intros Hnil%(f_equal length).
      rewrite indices_length, (count_replicate_eq false) in Hnil. simpl in Hnil. lia. }
    exists c, r1. rewrite Hfresh. split; [done|].
    apply indices_lt in Hin. by rewrite length_replicate in Hin. }
  (* a goat door other than the pick *)
  assert (exists d0, prizes g !! d0 = Some false /\ d0 ≠ c) as (d0 & Hd0 & Hd0c).
  { pose proof (indices_NoDup false (prizes g)) as Hnd.
    pose proof (indices_length false (prizes g)) as Hlen. rewrite Hcnt in Hlen.
    destruct (indices false (prizes g)) as [|a [|b l]] eqn:Hidx; simpl in Hlen; [lia..|].
    apply NoDup_cons in Hnd as [Hab _].
    destruct (decide (a = c)) as [->|Hac].
    - exists b. split; [apply elem_of_indices; rewrite Hidx; set_solver|].
      intros ->. set_solver.
    - exists a. split; [apply elem_of_indices; rewrite Hidx; set_solver|done]. }
  destruct (reveal_goat_total (set_choice (Some c) g) r1 d0)
    as (d & r2 & Hrev & Hd & Hdc); [done|done|simpl; congruence|].
  simpl in Hd, Hdc.
  assert (d < n_doors g) as Hdlt by (rewrite <- Hwp; by eapply lookup_lt_Some).
  set (g2 := set_visible (<[d := true]> (visible (set_choice (Some c) g)))
                         (set_choice (Some c) g)) in *.
  assert (any (zip_with andb (visible g2) (prizes g2)) = false) as Hany.
  { simpl. rewrite Hfresh. by apply any_one_goat_open. }
  (* second pick *)
  assert (exists g3 r3 c3, choose pl g2 r2 = Ok (g3, r3) /\ choice g3 = Some c3 /\
                           prizes g3 = prizes g /\ rerolls g3 = rerolls g)
    as (g3 & r3 & c3 & Hch2 & Hc3 & Hp3 & Hr3).
  { assert (forall options, options ≠ [] -> options ⊆ indices false (visible g2) ->
              exists g3 r3 c3, choose_from options g2 r2 = Ok (g3, r3) /\
                choice g3 = Some c3 /\ prizes g3 = prizes g /\ rerolls g3 = rerolls g)
      as Hfrom.
    { intros options Hne _.
      destruct (choose_from_total options g2 r2 Hne) as (e & r3 & -> & _).
      by exists (set_choice (Some e) g2), r3, e. }
    unfold choose. rewrite Hany. simpl.
    destruct (String.eqb_spec pl "stay") as [->|Hs]; [by exists g2, r2, c|].
    destruct (String.eqb_spec pl "random") as [->|Hra].
    { apply Hfrom; [|done]. intros Hnil%(f_equal length).
      rewrite indices_length in Hnil. simpl in Hnil.
      pose proof (count_true_false (<[d := true]> (visible g))) as Hsum.
      rewrite length_insert, Hfresh, count_one_open, length_replicate in Hsum by done.
      rewrite Hfresh in Hnil. lia. }
    destruct (String.eqb_spec pl "update") as [->|Hu]; [|by exists g2, r2, c].
    apply Hfrom; [|apply remove_first_subseteq]. intros Hnil%(f_equal length).
    simpl in Hnil. specialize (Hupd eq_refl).
    assert (c ∈ indices false (<[d := true]> (visible g))) as Hcin.
    { apply elem_of_indices. rewrite list_lookup_insert_ne by congruence.
      rewrite Hfresh. by apply lookup_replicate_2. }
    apply remove_first_length in Hcin. rewrite Hnil, indices_length in Hcin.
    pose proof (count_true_false (<[d := true]> (visible g))) as Hsum.
    rewrite length_insert, Hfresh, count_one_open, length_replicate in Hsum by done.
    rewrite Hfresh in Hcin. lia. }
  assert (exists w, prizes g3 !! c3 = Some w) as [w Hw].
  { apply lookup_lt_is_Some_2. rewrite Hp3, Hwp.
    destruct (choose_no_prize _ _ _ _ _ Hany Hch2) as [[Heq _]|(e & Heq & He)];
      rewrite Heq in Hc3.
    - simpl in Hc3. by injection Hc3 as <-.
    - simpl in Hc3, He. injection Hc3 as <-.
      apply lookup_lt_Some in He. by rewrite length_insert, Hwv in He. }
  exists w, (set_win w g3), r3. split; [|done].
  simpl. rewrite Hch. simpl. fold g2. rewrite Hrev. simpl. rewrite Hch2. simpl.
  rewrite Hc3. unfold subscript. by rewrite Hw.
Qed.

End total.

Section classic.
Context {R : Type} `{RandomSource R}.

(** X16: the classic game (three doors, two goats, host ['goat']) on the
    same random draws: whenever switching (['update']) resolves with
    result [w], staying (['stay']) resolves with the opposite result. *)
Theorem classic_switch_wins_iff_stay_loses depth g (r : R) w g' r' :
  dealt g -> visible g = replicate (n_doors g) false ->
  n_doors g = 3 -> n_goats g = 2 ->
  play (S depth) "update" "goat" g r = Ok (w, g', r') ->
  exists g'' r'', play (S depth) "stay" "goat" g r = Ok (negb w, g'', r'').
Proof.
  intros ([Hwp Hwv] & Hcnt & Hle) Hfresh Hdoors Hgoats.
  intros (g1 & r1 & b & g2 & r2 & Hch & Hrev & Hb)%play_S_Ok.
  pose proof Hch as (c & Hc & ->)%choose_random_closed.
  assert (c < 3) as Hc3.
  { apply lookup_lt_Some in Hc. by rewrite Hwv, Hdoors in Hc. }
  destruct b.
  { apply reveal_goat_reroll_inv in Hrev as [_ Hone].
    simpl in Hone. lia. }
  destruct Hb as (g3 & e & Hch2 & He & Hw & ->).
  pose proof Hrev as [([=] & _)|(_ & options & d & Hopt & Hd & Hlt & Hg2)]%reveal_Ok.
  subst g2.
  eapply reveal_options_spec in Hd as (Hdc & Hprize & _); [|done].
  specialize (Hprize eq_refl). simpl in Hdc, Hprize, Hlt.
  assert (any (zip_with andb (<[d := true]> (visible g)) (prizes g)) = false) as Hany.
  { rewrite Hfresh. by apply any_one_goat_open. }
  eapply choose_update_other_door in Hch2 as (e' & -> & Hec & Hclosed);
    [|done|reflexivity].
  simpl in He, Hw, Hclosed. injection He as ->.
  assert (e ≠ d) as Hed.
  { intros ->. by rewrite list_lookup_insert_eq in Hclosed. }
  assert (e < 3) as He3.
  { apply lookup_lt_Some in Hw. by rewrite Hwp, Hdoors in Hw. }
  pose proof (three_doors_switch (prizes g) c d e) as Hsw.
  rewrite Hwp, Hdoors, Hcnt, Hgoats in Hsw.
  specialize (Hsw eq_refl eq_refl Hc3 Hprize ltac:(congruence) He3 Hed Hec).
  rewrite Hw in Hsw.
  destruct (prizes g !! c) as [wc|] eqn:Hwc; simplify_eq/=.
  eexists _, _. rewrite Hch. simpl. rewrite Hrev. simpl.
  unfold choose. simpl. rewrite Hany. simpl.
  unfold subscript. rewrite Hwc. simpl. by rewrite negb_involutive.
Qed.
End classic.

Section doors_needed.
Context {R : Type} `{RandomSource R}.

(** X17: a game started with all doors closed that [play] resolves has at
    least two doors (the pick and the opened door differ); under host
    ['goat'] and player ['update'] it has at least three. *)
Theorem play_needs_doors depth pl ho g (r : R) w g' r' :
  visible g = replicate (n_doors g) false ->
  play depth pl ho g r = Ok (w, g', r') ->
  2 <= n_doors g' /\ (ho = "goat" -> pl = "update" -> 3 <= n_doors g').
Proof.
  revert g r. induction depth as [|depth IH]; intros g r Hfresh; [done|].
  intros (g1 & r1 & b & g2 & r2 & Hch & Hrev & Hb)%play_S_Ok. destruct b.
  - destruct Hb as (g4 & r4 & Hinit & Hp).
    apply initialize_state_frame in Hinit as (Hv & _). by eapply IH.
  - destruct Hb as (g3 & c3 & Hch2 & Hc3 & Hw & ->).
    apply choose_random_closed in Hch as (c & Hc & ->).
    apply reveal_Ok in Hrev as [([=] & _)|(_ & options & d & Hopt & Hd & Hlt & ->)].
    pose proof Hch2 as [c' ->]%choose_frame. simpl in *.
    apply lookup_lt_Some in Hc.
    rewrite Hfresh, length_replicate in Hc, Hlt.
    pose proof (reveal_options_spec _ _ _ _ Hopt Hd) as (Hne & Hprize & _).
    simpl in Hne. assert (d ≠ c) as Hdc by congruence.
    split; [lia|]. intros -> ->. specialize (Hprize eq_refl). simpl in Hprize.
    eapply choose_update_other_door in Hch2 as (e & _ & Hec & He);
      [| |reflexivity].
    + simpl in He. rewrite Hfresh in He.
      assert (e ≠ d) as Hed.
      { intros ->. rewrite list_lookup_insert_eq in He; [done|].
        by rewrite length_replicate. }
      apply lookup_lt_Some in He. rewrite length_insert, length_replicate in He. lia.
    + simpl. rewrite Hfresh. by apply any_one_goat_open.
Qed.

(** The request that [play] keeps serving. *)
Lemma play_uses_request depth pl ho g (r : R) w g' r' :
  (forall d, truthy (args g).1 = Some d -> n_doors g = d) ->
  (forall k, truthy (args g).2 = Some k -> n_goats g = k) ->
  play depth pl ho g r = Ok (w, g', r') ->
  (forall d, truthy (args g).1 = Some d -> n_doors g' = d) /\
  (forall k, truthy (args g).2 = Some k -> n_goats g' = k).
Proof.
  revert g r. induction depth as [|depth IH]; intros g r Hd Hk; [done|].
  intros (g1 & r1 & b & g2 & r2 & Hch & Hrev & Hb)%play_S_Ok.
  apply choose_frame in Hch as [c1 ->]. destruct b.
  - destruct Hb as (g4 & r4 & Hinit & Hp).
    apply reveal_Ok in Hrev as [(_ & -> & _)|([=] & _)]. simpl in Hinit.
    pose proof (initialize_state_frame _ _ _ _ _ _ Hinit) as (_ & _ & _ & _ & Hargs & _).
    apply initialize_state_request in Hinit as [Hd4 Hk4].
    eapply IH in Hp; [|by rewrite Hargs..]. by rewrite Hargs in Hp.
  - destruct Hb as (g3 & c3 & [c' ->]%choose_frame & _ & _ & ->).
    by apply reveal_Ok in Hrev as [([=] & _)|(_ & options & d & _ & _ & _ & ->)].
Qed.
End doors_needed.

(* ===================================================================== *)
(** ** Further properties: [simulate] *)

Lemma goats_wins_key_inj a b : goats_wins_key a = goats_wins_key b -> a = b.
Proof.
  unfold goats_wins_key. intros Heq.
  apply (f_equal chars) in Heq.
  rewrite !list_ascii_of_string_app in Heq.
  apply app_inv_tail, list_ascii_of_string_inj in Heq.
  by apply (inj pretty).
Qed.

Lemma goats_wins_key_ne_win a : goats_wins_key a ≠ "win".
Proof. apply (suffix_ne _ "" _ "win"). intros l1 l2. by cbv. Qed.

Lemma count_bucket_win game ct st :
  stat "win" (count_bucket game ct st) = stat "win" st.
Proof.
  unfold count_bucket.
  rewrite !stat_add_ne; [done|apply goats_key_ne_win|apply goats_wins_key_ne_win].
Qed.

Lemma count_buckets_win game bound st :
  stat "win" (count_buckets game bound st) = stat "win" st.
Proof.
  unfold count_buckets. generalize 0 as start. revert st.
  induction bound as [|bound IH]; intros st start; simpl; [done|].
  by rewrite IH, count_bucket_win.
Qed.

Lemma count_bucket_goats_wins game ct st b :
  stat (goats_wins_key b) (count_bucket game ct st)
  = stat (goats_wins_key b) st
    + (if decide (b = ct)
       then Nat.b2n (bool_decide (ct = n_goats game) && win game) else 0).
Proof.
  unfold count_bucket. case_decide as Hb.
  - subst. rewrite stat_add_eq, stat_add_ne; [done|apply goats_key_ne_wins].
  - rewrite !stat_add_ne; [lia|apply goats_key_ne_wins|].
    intros Heq%goats_wins_key_inj. done.
Qed.

Lemma count_buckets_goats_wins_from game start bound st b :
  stat (goats_wins_key b)
       (foldl (fun acc ct => count_bucket game ct acc) st (seq start bound))
  = stat (goats_wins_key b) st
    + (if decide (start <= b < start + bound /\ b = n_goats game /\ win game = true)
       then 1 else 0).
Proof.
  revert st start. induction bound as [|bound IH]; intros st start; simpl.
  - rewrite decide_False by lia. lia.
  - rewrite IH, count_bucket_goats_wins.
    destruct (win game); repeat case_decide; try case_bool_decide; simpl;
      try lia; naive_solver lia.
Qed.

Lemma count_buckets_goats_wins game bound st b :
  stat (goats_wins_key b) (count_buckets game bound st)
  = stat (goats_wins_key b) st
    + (if decide (b < bound /\ b = n_goats game /\ win game = true) then 1 else 0).
Proof.
  unfold count_buckets. rewrite count_buckets_goats_wins_from.
  repeat case_decide; naive_solver lia.
Qed.

Section series_extra.
Context {R : Type} `{RandomSource R}.

(** What a completed run of the loop of [simulate] adds to the series. *)
Lemma simulate_loop_tally depth n s (r : R) s' r' :
  simulate_loop depth n s r = Ok (s', r') ->
  exists new,
    history s' = (history s ++ new)%list /\ length new = n /\
    config s' = config s /\
    stat "win" (stats s')
    = stat "win" (stats s) + length (filter (fun g => win g = true) new) /\
    forall maxd b,
      rules_max_doors (rules (config s)) = Some maxd -> b <= maxd ->
      stat (goats_key b) (stats s')
      = stat (goats_key b) (stats s)
        + length (filter (fun g => n_goats g = b) new) /\
      stat (goats_wins_key b) (stats s')
      = stat (goats_wins_key b) (stats s)
        + length (filter (fun g => n_goats g = b /\ win g = true) new).
Proof.
  revert s r. induction n as [|n IH]; intros s r; simpl.
  - intros [= <- _]. exists []. rewrite app_nil_r. simpl.
    repeat split; try done; lia.
  - intros Hl. apply bind_Ok in Hl as ([s1 r1] & Hstep & Hl).
    apply IH in Hl as (new & Hhist & Hlen & Hcfg & Hwin & Hb).
    apply simulate_step_Ok in Hstep
      as (game0 & r0 & w & game & maxd & Hinit & Hplay & Hmax & ->).
    simpl in *. exists (game :: new).
    rewrite Hhist, <- app_assoc. split; [done|]. split; [by rewrite <- Hlen|].
    split; [done|]. split.
    + rewrite Hwin, count_buckets_win, stat_add_ne, stat_add_eq by done.
      rewrite filter_cons. destruct (win game); case_decide; simplify_eq; simpl; lia.
    + intros maxd' b Hmax' Hle. rewrite Hmax in Hmax'. injection Hmax' as <-.
      destruct (Hb maxd b Hmax Hle) as [-> ->].
      rewrite count_buckets_goats, count_buckets_goats_wins.
      rewrite !stat_add_ne
        by (first [apply not_eq_sym, goats_key_ne_win
                  |apply not_eq_sym, goats_key_ne_rerolls
                  |apply not_eq_sym, goats_wins_key_ne_win
                  |apply not_eq_sym, goats_wins_key_ne_rerolls]).
      rewrite !filter_cons.
      split; repeat case_decide; simpl; try lia; naive_solver lia.
Qed.
End series_extra.

Section series_theorems.
Context {R : Type} `{RandomSource R}.

(** X18: a completed [simulate] call appends exactly one game per trial
    to [history], keeps the earlier games in place, and leaves the
    configuration as it was. *)
Theorem simulate_extends_history depth n s (r : R) s' r' :
  simulate depth n s r = Ok (s', r') ->
  config s' = config s /\
  exists new, history s' = (history s ++ new)%list /\ length new = trials n s.
Proof.
  intros (new & Hhist & Hlen & Hcfg & _)%simulate_loop_tally.
  split; [done|]. by exists new.
Qed.

(** X19: [stats['win']] grows by the number of games won in the call, so
    by at most the number of trials. *)
Theorem simulate_counts_wins depth n s (r : R) s' r' :
  simulate depth n s r = Ok (s', r') ->
  stat "win" (stats s')
  = stat "win" (stats s)
    + length (filter (fun g => win g = true)
                     (drop (length (history s)) (history s'))) /\
  stat "win" (stats s') <= stat "win" (stats s) + trials n s.
Proof.
  intros (new & Hhist & Hlen & _ & Hwin & _)%simulate_loop_tally.
  rewrite Hhist, drop_app_length, Hwin. split; [done|].
  pose proof (length_filter (fun g => win g = true) new). lia.
Qed.

(** X20: for every bucket [b <= max_doors], the bucket total grows by the
    number of games of the call dealt [b] goats, and the bucket's win
    count by the number of those that were won; so wins never grow by
    more than the total. *)
Theorem simulate_counts_buckets depth n s (r : R) s' r' maxd b :
  rules_max_doors (rules (config s)) = Some maxd -> b <= maxd ->
  simulate depth n s r = Ok (s', r') ->
  stat (goats_key b) (stats s')
  = stat (goats_key b) (stats s)
    + length (filter (fun g => n_goats g = b)
                     (drop (length (history s)) (history s'))) /\
  stat (goats_wins_key b) (stats s')
  = stat (goats_wins_key b) (stats s)
    + length (filter (fun g => n_goats g = b /\ win g = true)
                     (drop (length (history s)) (history s'))) /\
  stat (goats_wins_key b) (stats s') - stat (goats_wins_key b) (stats s)
  <= stat (goats_key b) (stats s') - stat (goats_key b) (stats s).
Proof.
  intros Hmax Hb (new & Hhist & _ & _ & _ & Hbk)%simulate_loop_tally.
  destruct (Hbk maxd b Hmax Hb) as [Ht Hw].
  rewrite Hhist, drop_app_length, Ht, Hw. split; [done|]. split; [done|].
  assert (length (filter (fun g => n_goats g = b /\ win g = true) new)
          <= length (filter (fun g => n_goats g = b) new)) as Hle; [|lia].
  clear. induction new as [|g new IH]; simpl; [done|].
  rewrite !filter_cons. repeat case_decide; simpl; try lia; naive_solver.
Qed.

(** Every game a completed run stores satisfies what each trial
    guarantees. *)
Lemma simulate_loop_Forall (P : Game -> Prop) depth n s (r : R) s' r' :
  (forall (r0 : R) game0 r1 w game r2,
      Game_init (rules_n_doors (rules (config s))) (rules_n_goats (rules (config s)))
                (rules_max_doors (rules (config s))) 0 r0 = Ok (game0, r1) ->
      play depth (player (strategies (config s))) (host (strategies (config s)))
           game0 r1 = Ok (w, game, r2) ->
      P game) ->
  simulate_loop depth n s r = Ok (s', r') ->
  Forall P (drop (length (history s)) (history s')).
Proof.
  intros HP. revert s r HP. induction n as [|n IH]; intros s r HP; simpl.
  - intros [= <- _]. by rewrite drop_all.
  - intros Hl. apply bind_Ok in Hl as ([s1 r1] & Hstep & Hl).
    pose proof (simulate_loop_tally _ _ _ _ _ _ Hl) as (new & Hhist & _).
    apply simulate_step_Ok in Hstep
      as (game0 & r0 & w & game & maxd & Hinit & Hplay & Hmax & ->).
    apply IH in Hl; [|done]. simpl in *.
    rewrite Hhist, drop_app_length in Hl.
    rewrite Hhist, <- app_assoc, drop_app_length. simpl.
    constructor; [by eapply HP|done].
Qed.

(** X21: a positive [n_doors] of the rules is the door count of every
    game of a completed call, and a positive [n_goats] its goat count. *)
Theorem simulate_uses_rules depth n s (r : R) s' r' :
  simulate depth n s r = Ok (s', r') ->
  Forall (fun g =>
            (forall d, truthy (rules_n_doors (rules (config s))) = Some d ->
                       n_doors g = d) /\
            (forall k, truthy (rules_n_goats (rules (config s))) = Some k ->
                       n_goats g = k))
         (drop (length (history s)) (history s')).
Proof.
  apply simulate_loop_Forall. intros r0 game0 r1 w game r2 Hinit Hplay.
  unfold Game_init in Hinit.
  pose proof (initialize_state_frame _ _ _ _ _ _ Hinit) as (_ & _ & _ & _ & Hargs & _).
  apply initialize_state_request in Hinit as [Hd Hk].
  eapply play_uses_request in Hplay; [|by rewrite Hargs..].
  by rewrite Hargs in Hplay.
Qed.

(** X22: running [simulate(n)] and then [simulate(m)] on the same series
    is running [simulate(n + m)], for positive [n] and [m]: a raise in
    either call is the raise of the long call, and the final series and
    generator agree. *)
Theorem simulate_twice depth n m s (r : R) :
  0 < n -> 0 < m ->
  simulate depth (Some (n + m)) s r
  = '(s1, r1) ← simulate depth (Some n) s r; simulate depth (Some m) s1 r1.
Proof.
  intros Hn Hm. unfold simulate, trials.
  destruct n as [|n]; [lia|]. destruct m as [|m]; [lia|].
  change (py_or_nat (Some (S n + S m)) (games (config s))) with (S n + S m).
  change (py_or_nat (Some (S n)) (games (config s))) with (S n).
  generalize (S n) as k. clear Hn n. intros k. revert s r.
  induction k as [|k IH]; intros s r; simpl; [done|].
  destruct (simulate_step depth s r) as [[s1 r1]|e]; simpl; [|done].
  apply IH.
Qed.

(** X23: when neither [max_doors] nor [n_doors] gives an upper bucket,
    [simulate] cannot finish a single trial: the bound of the bucket loop
    is [None + 1]. *)
Theorem simulate_without_bucket_bound depth n cfg (r : R) :
  truthy (rules_max_doors (rules cfg)) = None ->
  rules_n_doors (rules cfg) = None ->
  0 < trials n (GameSeries_init cfg) ->
  is_ok (simulate depth n (GameSeries_init cfg) r) = false /\
  forall game0 r0 w game r1,
    Game_init None (rules_n_goats (rules cfg)) None 0 r = Ok (game0, r0) ->
    play depth (player (strategies cfg)) (host (strategies cfg)) game0 r0
    = Ok (w, game, r1) ->
    simulate depth n (GameSeries_init cfg) r = Raise TypeError.
Proof.
  intros Hmax Hnd Hn. unfold simulate.
  destruct (trials n (GameSeries_init cfg)) as [|k]; [lia|]. simpl.
  unfold simulate_step. simpl. unfold py_or. rewrite Hmax, Hnd. split.
  - destruct (Game_init _ _ _ _ r) as [[g0 r0]|e]; simpl; [|done].
    by destruct (play depth _ _ g0 r0) as [[[w g1] r1]|e].
  - intros game0 r0 w game r1 -> Hplay. simpl. by rewrite Hplay.
Qed.
End series_theorems.

Section series_laws_extra.
Context {R : Type} `{RandomSourceLaws R}.

(** X24: for a configuration with a positive [n_doors] whose [max_doors]
    is unset or not below it (as in [run.py]), the first [simulate] call
    on a new series leaves bucket totals that sum to the number of trials
    run. *)
Theorem new_series_bucket_totals depth n cfg (r : R) s' r' d :
  truthy (rules_n_doors (rules cfg)) = Some d ->
  (forall m, truthy (rules_max_doors (rules cfg)) = Some m -> d <= m) ->
  simulate depth n (GameSeries_init cfg) r = Ok (s', r') ->
  bucket_sum (py_or_nat (rules_max_doors (rules cfg)) d) (stats s')
  = trials n (GameSeries_init cfg).
Proof.
  intros Hd Hm Hs.
  assert (rules_max_doors (rules (config (GameSeries_init cfg)))
          = Some (py_or_nat (rules_max_doors (rules cfg)) d)) as Hmax.
  { simpl. unfold py_or, py_or_nat.
    destruct (rules_max_doors (rules cfg)) as [[|m]|]; simpl;
      destruct (rules_n_doors (rules cfg)) as [[|d']|]; simplify_eq/=; done. }
  eapply simulate_loop_bucket_sum in Hs; [|exact Hmax|].
  - rewrite Hs. unfold bucket_sum. simpl.
    assert (forall l, sum_list ((fun ct => stat (goats_key ct) ∅) <$> l) = 0) as ->;
      [|done].
    induction l as [|x l IH]; simpl; [done|]. by rewrite stat_empty.
  - unfold door_cap. simpl. rewrite Hd. unfold py_or_nat.
    destruct (truthy (rules_max_doors (rules cfg))) as [m|] eqn:Hmm; [|done].
    by apply Hm.
Qed.
End series_laws_extra.

(* ===================================================================== *)
(** ** Worked instances of the further properties *)

Lemma initialize_state_resets_witness :
  exists g' r',
    initialize_state (Some 3) (Some 2)
      (set_rerolls 4 (layout [true; false; false] [false; true; false] (Some 2)))
      [1; 1] = Ok (g', r') /\
    visible g' = replicate (n_doors g') false /\
    length (prizes g') = n_doors g' /\
    choice g' = None /\ win g' = false /\ args g' = (Some 3, Some 2) /\
    rerolls g' = 4 /\ min_doors g' = 3 /\ max_doors g' = 3 /\ verbose g' = 0.
Proof.
  eexists _, _. split; [reflexivity|].
  apply (initialize_state_resets (Some 3) (Some 2)
           (set_rerolls 4 (layout [true; false; false] [false; true; false] (Some 2)))
           [1; 1] _ []).
  reflexivity.
Defined.

Lemma initialize_state_uses_request_witness :
  exists g' r',
    initialize_state (Some 4) (Some 0) (layout [true; false; false] [] None) [3; 0; 1; 2]
    = Ok (g', r') /\
    (forall d, truthy (Some 4) = Some d -> n_doors g' = d) /\
    (forall k, truthy (Some 0) = Some k -> n_goats g' = k).
Proof.
  eexists _, _. split; [reflexivity|].
  apply (initialize_state_uses_request (Some 4) (Some 0)
           (layout [true; false; false] [] None) [3; 0; 1; 2] _ []).
  reflexivity.
Defined.

Lemma initialize_state_bad_request_witness :
  initialize_state (Some 2) (Some 3) (layout [true; false; false] [] None) [0; 0]
  = Raise ValueError.
Proof.
  apply initialize_state_bad_request. left. exists 2, 3.
  split; [reflexivity|]. split; [reflexivity|lia].
Defined.

Lemma initialize_state_ranges_witness :
  exists g' r',
    initialize_state None None (mkGame 3 5 0 0 None false (None, None) 0 0 [] [])
      [7; 9; 2; 2; 2; 2] = Ok (g', r') /\
    (truthy None = None -> 3 <= n_doors g' <= 5) /\ n_goats g' <= n_doors g'.
Proof.
  eexists _, _. split; [reflexivity|].
  apply (initialize_state_ranges None None
           (mkGame 3 5 0 0 None false (None, None) 0 0 [] [])
           [7; 9; 2; 2; 2; 2] _ []).
  reflexivity.
Defined.

Lemma initialize_state_succeeds_witness :
  exists g' r',
    initialize_state (Some 3) (Some 2) (layout [true; false; false] [] None) [5; 5]
    = Ok (g', r').
Proof.
  apply initialize_state_succeeds.
  - intros d [= <-] k [= <-]. lia.
  - intros [=].
Defined.

Lemma choose_stay_is_passive_witness :
  exists g',
    choose "stay" (layout [true; false; false] [false; true; false] (Some 0)) [6]
    = Ok (g', [6]) /\
    prizes g' = [true; false; false] /\ visible g' = [false; true; false] /\
    (any (zip_with andb [false; true; false] [true; false; false]) = false ->
     g' = layout [true; false; false] [false; true; false] (Some 0)).
Proof.
  apply (choose_stay_is_passive "stay"
           (layout [true; false; false] [false; true; false] (Some 0)) [6]).
  - split; reflexivity.
  - discriminate.
  - discriminate.
Defined.



Lemma visible_never_closes_witness :
  length [false; true; true] = length [false; true; false] /\
  forall j, [false; true; false] !! j = Some true ->
            [false; true; true] !! j = Some true.
Proof.
  apply (proj2 (visible_never_closes "goat"
                  (layout [true; false; false] [false; true; false] (Some 0)) [1])
           false (layout [true; false; false] [false; true; true] (Some 0)) []).
  reflexivity.
Defined.

Lemma reveal_random_never_rerolls_witness :
  false = false /\
  exists d, d < 3 /\ Some 0 ≠ Some d /\
            layout [true; false; false] [false; true; false] (Some 0)
            = set_visible (<[d := true]> [false; false; false])
                (layout [true; false; false] [false; false; false] (Some 0)).
Proof.
  apply (proj1 (reveal_random_never_rerolls
                  (layout [true; false; false] [false; false; false] (Some 0)) [0])
           false (layout [true; false; false] [false; true; false] (Some 0)) []).
  reflexivity.
Defined.

Lemma reveal_goat_reroll_only_without_goat_witness :
  (forall d, [true; false; true] !! d = Some false -> Some 1 = Some d) /\
  count false [true; false; true] <= 1.
Proof.
  apply (reveal_goat_reroll_only_without_goat
           (layout [true; false; true] [false; false; false] (Some 1)) [4]
           (layout [true; false; true] [false; false; false] (Some 1)) [4]).
  reflexivity.
Defined.

Lemma play_returns_prize_of_choice_witness :
  win (layout [true; false; false] [false; true; false] (Some 2)) = false /\
  exists c, choice (layout [true; false; false] [false; true; false] (Some 2)) = Some c /\
            [true; false; false] !! c = Some false.
Proof.
  apply (play_returns_prize_of_choice 1 "update" "goat"
           (layout [true; false; false] [false; false; false] None) [0; 0; 0]
           false (layout [true; false; false] [false; true; false] (Some 2)) []).
  reflexivity.
Defined.

Lemma play_host_random_never_restarts_witness :
  play 8 "stay" "random" (layout [true; false; false] [false; false; false] None) [1; 1]
  = play 1 "stay" "random" (layout [true; false; false] [false; false; false] None) [1; 1] /\
  rerolls (layout [true; false; false] [false; false; true] (Some 1)) = 0.
Proof.
  split.
  - apply (play_host_random_never_restarts 7 "stay"
             (layout [true; false; false] [false; false; false] None) [1; 1]).
  - apply (proj2 (play_host_random_never_restarts 7 "stay"
                    (layout [true; false; false] [false; false; false] None) [1; 1])
             false (layout [true; false; false] [false; false; true] (Some 1)) []).
    reflexivity.
Defined.

Lemma play_opens_one_door_witness :
  exists d, d < 3 /\
            [false; true; false] = <[d := true]> (replicate 3 false) /\
            count true [false; true; false] = 1 /\
            ("goat" = "goat" -> [true; false; false] !! d = Some false /\
                                Some 2 ≠ Some d).
Proof.
  apply (play_opens_one_door 1 "update" "goat"
           (layout [true; false; false] [false; false; false] None) [0; 0; 0]
           false (layout [true; false; false] [false; true; false] (Some 2)) []);
    reflexivity.
Defined.

Lemma play_two_goats_returns_witness :
  exists w g' r',
    play 1 "update" "goat" (layout [true; false; false] [false; false; false] None)
         [0; 0; 0] = Ok (w, g', r') /\
    rerolls g' = 0.
Proof.
  apply (play_two_goats_returns 0 "update"
           (layout [true; false; false] [false; false; false] None) [0; 0; 0]).
  - repeat split; vm_compute; lia.
  - reflexivity.
  - vm_compute. lia.
  - intros _. vm_compute. lia.
Defined.

Lemma classic_switch_wins_iff_stay_loses_witness :
  exists g'' r'',
    play 1 "stay" "goat" (layout [true; false; false] [false; false; false] None)
         [1; 0; 0] = Ok (negb true, g'', r'').
Proof.
  apply (classic_switch_wins_iff_stay_loses 0
           (layout [true; false; false] [false; false; false] None) [1; 0; 0]
           true (set_win true (layout [true; false; false] [false; false; true] (Some 0)))
           []).
  - repeat split; vm_compute; lia.
  - reflexivity.
  - reflexivity.
  - reflexivity.
  - reflexivity.
Defined.

Lemma play_needs_doors_witness :
  2 <= 3 /\ ("goat" = "goat" -> "update" = "update" -> 3 <= 3).
Proof.
  apply (play_needs_doors 1 "update" "goat"
           (layout [true; false; false] [false; false; false] None) [0; 0; 0]
           false (layout [true; false; false] [false; true; false] (Some 2)) []);
    reflexivity.
Defined.

Lemma simulate_extends_history_witness :
  exists s' r',
    simulate 2 None (GameSeries_init one_goat_config) one_goat_tape = Ok (s', r') /\
    config s' = config (GameSeries_init one_goat_config) /\
    exists new, history s' = (history (GameSeries_init one_goat_config) ++ new)%list /\
                length new = trials None (GameSeries_init one_goat_config).
Proof.
  eexists _, _. split; [vm_compute; reflexivity|].
  apply (simulate_extends_history 2 None (GameSeries_init one_goat_config)
           one_goat_tape _ []).
  vm_compute; reflexivity.
Defined.

Lemma simulate_counts_wins_witness :
  exists s' r',
    simulate 2 None (GameSeries_init one_goat_config) one_goat_tape = Ok (s', r') /\
    stat "win" (stats s')
    = stat "win" (stats (GameSeries_init one_goat_config))
      + length (filter (fun g => win g = true)
                  (drop (length (history (GameSeries_init one_goat_config)))
                        (history s'))) /\
    stat "win" (stats s')
    <= stat "win" (stats (GameSeries_init one_goat_config))
       + trials None (GameSeries_init one_goat_config).
Proof.
  eexists _, _. split; [vm_compute; reflexivity|].
  apply (simulate_counts_wins 2 None (GameSeries_init one_goat_config)
           one_goat_tape _ []).
  vm_compute; reflexivity.
Defined.

Lemma simulate_counts_buckets_witness :
  exists s' r',
    simulate 2 None (GameSeries_init one_goat_config) one_goat_tape = Ok (s', r') /\
    stat (goats_key 1) (stats s')
    = stat (goats_key 1) (stats (GameSeries_init one_goat_config))
      + length (filter (fun g => n_goats g = 1)
                  (drop (length (history (GameSeries_init one_goat_config)))
                        (history s'))) /\
    stat (goats_wins_key 1) (stats s')
    = stat (goats_wins_key 1) (stats (GameSeries_init one_goat_config))
      + length (filter (fun g => n_goats g = 1 /\ win g = true)
                  (drop (length (history (GameSeries_init one_goat_config)))
                        (history s'))) /\
    stat (goats_wins_key 1) (stats s')
    - stat (goats_wins_key 1) (stats (GameSeries_init one_goat_config))
    <= stat (goats_key 1) (stats s')
       - stat (goats_key 1) (stats (GameSeries_init one_goat_config)).
Proof.
  eexists _, _. split; [vm_compute; reflexivity|].
  apply (simulate_counts_buckets 2 None (GameSeries_init one_goat_config)
           one_goat_tape _ [] 3 1).
  - reflexivity.
  - lia.
  - vm_compute; reflexivity.
Defined.

Lemma simulate_uses_rules_witness :
  exists s' r',
    simulate 2 None (GameSeries_init one_goat_config) one_goat_tape = Ok (s', r') /\
    Forall (fun g =>
              (forall d, truthy (rules_n_doors
                                   (rules (config (GameSeries_init one_goat_config))))
                         = Some d -> n_doors g = d) /\
              (forall k, truthy (rules_n_goats
                                   (rules (config (GameSeries_init one_goat_config))))
                         = Some k -> n_goats g = k))
           (drop (length (history (GameSeries_init one_goat_config))) (history s')).
Proof.
  eexists _, _. split; [vm_compute; reflexivity|].
  apply (simulate_uses_rules 2 None (GameSeries_init one_goat_config)
           one_goat_tape _ []).
  vm_compute; reflexivity.
Defined.

Lemma simulate_twice_witness :
  simulate 2 (Some (1 + 1)) (GameSeries_init one_goat_config) one_goat_tape
  = '(s1, r1) ← simulate 2 (Some 1) (GameSeries_init one_goat_config) one_goat_tape;
    simulate 2 (Some 1) s1 r1.
Proof. apply simulate_twice; lia. Defined.

Lemma simulate_without_bucket_bound_witness :
  is_ok (simulate 2 None
           (GameSeries_init (mkConfig 1 (mkRules None (Some 2) None)
                                      (mkStrategies "stay" "goat")))
           [0; 0; 0; 0; 0]) = false /\
  forall game0 r0 w game r1,
    Game_init None (Some 2) None 0 [0; 0; 0; 0; 0] = Ok (game0, r0) ->
    play 2 "stay" "goat" game0 r0 = Ok (w, game, r1) ->
    simulate 2 None
      (GameSeries_init (mkConfig 1 (mkRules None (Some 2) None)
                                 (mkStrategies "stay" "goat")))
      [0; 0; 0; 0; 0] = Raise TypeError.
Proof.
  apply (simulate_without_bucket_bound 2 None
           (mkConfig 1 (mkRules None (Some 2) None) (mkStrategies "stay" "goat"))
           [0; 0; 0; 0; 0]).
  - reflexivity.
  - reflexivity.
  - vm_compute. lia.
Defined.

Lemma new_series_bucket_totals_witness :
  exists s' r',
    simulate 1 (Some 2) (GameSeries_init single_game_config) two_games_tape
    = Ok (s', r') /\
    bucket_sum (py_or_nat (rules_max_doors (rules single_game_config)) 3) (stats s')
    = trials (Some 2) (GameSeries_init single_game_config).
Proof.
  eexists _, _. split; [vm_compute; reflexivity|].
  apply (new_series_bucket_totals 1 (Some 2) single_game_config two_games_tape
           _ [] 3).
  - reflexivity.
  - intros m [=].
  - vm_compute; reflexivity.
Defined.

(* ===================================================================== *)
(** ** The series: reroll counters, bucket totals, [simulate(0)] *)

Section series_revised.
Context {R : Type} `{RandomSource R}.

(** The bucket totals after a completed run of the loop. *)
Lemma simulate_loop_bucket_sum_exact depth n s (r : R) s' r' maxd :
  rules_max_doors (rules (config s)) = Some maxd ->
  simulate_loop depth n s r = Ok (s', r') ->
  bucket_sum maxd (stats s')
  = bucket_sum maxd (stats s)
    + length (filter (fun g => n_goats g <= maxd)
                     (drop (length (history s)) (history s'))).
Proof.
  revert s r. induction n as [|n IH]; intros s r Hmax; simpl.
  - intros [= <- _]. rewrite drop_all. simpl. lia.
  - intros Hl. apply bind_Ok in Hl as ([s1 r1] & Hstep & Hl).
    pose proof (simulate_loop_tally _ _ _ _ _ _ Hl) as (new & Hhist & _).
    apply simulate_step_Ok in Hstep
      as (game0 & r0 & w & game & maxd' & Hinit & Hplay & Hmax' & ->).
    rewrite Hmax in Hmax'. injection Hmax' as <-.
    apply IH in Hl; [|done]. rewrite Hl. simpl in *.
    rewrite Hhist, drop_app_length, <- app_assoc, drop_app_length. simpl.
    rewrite filter_cons, bucket_sum_count_buckets.
    rewrite !bucket_sum_stat_add by (first [apply goats_key_ne_win|apply goats_key_ne_rerolls]).
    repeat case_decide; simpl; lia.
Qed.

(** C5 (as the code has it): a completed [simulate] call raises the sum
    of the bucket totals over [0 .. max_doors] by the number of its
    trials whose goat count is at most [max_doors]; when that is every
    trial of the call, the sum grows by the number of trials run, and on
    a series with empty statistics it is then that number. *)
Theorem bucket_totals_count_trials depth n s (r : R) s' r' maxd :
  rules_max_doors (rules (config s)) = Some maxd ->
  simulate depth n s r = Ok (s', r') ->
  bucket_sum maxd (stats s')
  = bucket_sum maxd (stats s)
    + length (filter (fun g => n_goats g <= maxd)
                     (drop (length (history s)) (history s'))) /\
  length (drop (length (history s)) (history s')) = trials n s /\
  (Forall (fun g => n_goats g <= maxd) (drop (length (history s)) (history s')) ->
   bucket_sum maxd (stats s') = bucket_sum maxd (stats s) + trials n s /\
   (stats s = ∅ -> bucket_sum maxd (stats s') = trials n s)).
Proof.
  intros Hmax Hs.
  pose proof (simulate_loop_bucket_sum_exact _ _ _ _ _ _ _ Hmax Hs) as Hsum.
  pose proof (simulate_loop_tally _ _ _ _ _ _ Hs) as (new & Hhist & Hlen & _).
  rewrite Hhist, drop_app_length in Hsum |- *.
  split; [done|]. split; [done|]. intros Hall.
  assert (filter (fun g => n_goats g <= maxd) new = new) as Hfil.
  { clear -Hall. induction Hall as [|g new Hg Hall IH]; [done|].
    rewrite filter_cons, decide_True by done. by rewrite IH. }
  rewrite Hfil, Hlen in Hsum. split; [done|].
  intros Hemp. rewrite Hsum, Hemp. unfold bucket_sum.
  assert (forall l, sum_list ((fun ct => stat (goats_key ct) ∅) <$> l) = 0) as ->; [|done].
  induction l as [|x l IH]; simpl; [done|]. by rewrite stat_empty.
Qed.

(** C4 (as the code has it): in every [simulate] call, each game counts
    its own restarts only, from [0]; the series-wide count is
    [stats['rerolls']], which the call raises by the sum of the counters
    of its games. *)
Theorem reroll_counter_is_per_trial depth n s (r : R) s' r' :
  simulate depth n s r = Ok (s', r') ->
  rerolls <$> drop (length (history s)) (history s')
  = loop_restarts depth (trials n s) s r /\
  stat "rerolls" (stats s')
  = stat "rerolls" (stats s)
    + sum_list (rerolls <$> drop (length (history s)) (history s')) /\
  (history s = [] -> stats s = ∅ ->
   stat "rerolls" (stats s') = sum_list (rerolls <$> history s')).
Proof.
  intros Hs. apply simulate_loop_rerolls in Hs as (new & Hhist & Hmap & Hstat).
  rewrite Hhist, drop_app_length. split; [done|]. split; [done|].
  intros Hnil Hemp. by rewrite Hstat, Hnil, Hemp, stat_empty.
Qed.

(** C10: [simulate(0)] is [simulate()]: it runs [config['games']] passes
    of the loop, and when it returns it has appended that many games to
    [history], each one built by [Game] from the rules and resolved by
    [play]. *)
Theorem simulate_zero_runs_configured_games depth s (r : R) s' r' :
  simulate depth (Some 0) s r = Ok (s', r') ->
  trials (Some 0) s = games (config s) /\
  simulate depth (Some 0) s r = simulate depth None s r /\
  length (drop (length (history s)) (history s')) = games (config s) /\
  length (history s') = length (history s) + games (config s) /\
  Forall (played_trial R depth (config s))
         (drop (length (history s)) (history s')).
Proof.
  intros Hs. split; [done|]. split; [done|].
  pose proof (simulate_loop_tally _ _ _ _ _ _ Hs) as (new & Hhist & Hlen & _).
  split; [by rewrite Hhist, drop_app_length|].
  split; [rewrite Hhist, length_app, Hlen; done|].
  eapply simulate_loop_Forall; [|exact Hs].
  intros r0 game0 r1 w game r2 Hinit Hplay. by exists r0, game0, r1, w, r2.
Qed.
End series_revised.

Lemma reroll_counter_is_per_trial_witness :
  exists s1 r1 s' r',
    simulate 2 (Some 1) (GameSeries_init one_goat_config) one_goat_tape
    = Ok (s1, r1) /\
    simulate 2 (Some 1) s1 r1 = Ok (s', r') /\
    rerolls <$> drop (length (history s1)) (history s')
    = loop_restarts 2 (trials (Some 1) s1) s1 r1 /\
    stat "rerolls" (stats s')
    = stat "rerolls" (stats s1)
      + sum_list (rerolls <$> drop (length (history s1)) (history s')) /\
    (history s1 = [] -> stats s1 = ∅ ->
     stat "rerolls" (stats s') = sum_list (rerolls <$> history s')).
Proof.
  eexists _, _, _, _. split; [vm_compute; reflexivity|].
  split; [vm_compute; reflexivity|].
  eapply (reroll_counter_is_per_trial 2 (Some 1)).
  vm_compute; reflexivity.
Defined.

Lemma bucket_totals_count_trials_witness :
  exists s' r',
    simulate 1 None (GameSeries_init wide_doors_config) [] = Ok (s', r') /\
    door_cap (rules (config (GameSeries_init wide_doors_config))) = 5 /\
    bucket_sum 3 (stats s') = trials None (GameSeries_init wide_doors_config).
Proof.
  eexists _, _. split; [vm_compute; reflexivity|]. split; [reflexivity|].
  refine (proj2 (proj2 (proj2
    (bucket_totals_count_trials 1 None (GameSeries_init wide_doors_config) []
       _ [] 3 eq_refl _)) _) eq_refl).
  - vm_compute; reflexivity.
  - vm_compute. repeat constructor.
Defined.

Lemma simulate_zero_runs_configured_games_witness :
  exists s' r',
    simulate 2 (Some 0) (GameSeries_init one_goat_config) one_goat_tape
    = Ok (s', r') /\
    trials (Some 0) (GameSeries_init one_goat_config)
    = games (config (GameSeries_init one_goat_config)) /\
    simulate 2 (Some 0) (GameSeries_init one_goat_config) one_goat_tape
    = simulate 2 None (GameSeries_init one_goat_config) one_goat_tape /\
    length (drop (length (history (GameSeries_init one_goat_config))) (history s'))
    = games (config (GameSeries_init one_goat_config)) /\
    length (history s')
    = length (history (GameSeries_init one_goat_config))
      + games (config (GameSeries_init one_goat_config)) /\
    Forall (played_trial (list nat) 2 (config (GameSeries_init one_goat_config)))
           (drop (length (history (GameSeries_init one_goat_config))) (history s')).
Proof.
  eexists _, _. split; [vm_compute; reflexivity|].
  apply (simulate_zero_runs_configured_games 2 (GameSeries_init one_goat_config)
           one_goat_tape _ []).
  vm_compute; reflexivity.
Defined.
